(** * eventlib: an in-process event queue with callback hooks

    A shallow embedding of [eventlib.c] / [eventlib.h] and the properties
    of its push / process / state-machine contract.

    Representation choices
    - [size_t] is an integer in [0, 2^64); [++] and [--] wrap.
    - The singly linked queue ([queue_head], [queue_tail], [next]) is the
      list of its nodes from head to tail; [queue_head == NULL] is the
      empty list.
    - Pointers to owned copies are block identifiers of a small heap
      (a set of live blocks plus the outcomes of the coming allocations);
      [NULL] is [None].  What [event.source] / [event.data] point to is
      kept by value in the event.
    - The caller's buffer is the list of bytes behind [data]; it holds at
      least [data_len] bytes whenever it is copied.
    - The hooks of the configuration are state transformers of the whole
      machine (processor, heap, call trace, host state): a hook may call
      back into the library, as the source allows.  Every hook invocation
      made by the library is appended to the call trace.  The properties
      that speak about what an operation leaves unchanged are stated for
      hooks that do not call back ([non_reentrant]).
    - The configuration is copied at creation and never written again; the
      operations take it as an argument next to the machine.
    - [event_processor_destroy] is given the address of the processor's
      own allocation; nothing below speaks about a processor after it was
      destroyed. *)

From stdpp Require Import base numbers list strings gmap pretty.
From Stdlib Require Import ZArith Lia.

Local Open Scope Z_scope.

(* [set_solver] clears hypotheses that may already be gone. *)
#[local] Set Warnings "-clear-no-such-hyp".

(** ** size_t *)

Definition SIZE_BITS : Z := 64.
Definition SIZE_MOD : Z := 2 ^ SIZE_BITS.

(** Unsigned wrap-around of [size_t] arithmetic. *)
Definition size_wrap (z : Z) : Z := z mod SIZE_MOD.

(** ** eventlib.h: event types and events *)

Inductive event_type_t : Type :=
| EVENT_TYPE_DATA
| EVENT_TYPE_CONNECT
| EVENT_TYPE_DISCONNECT
| EVENT_TYPE_ERROR.

(** The integer value of the enumerator (what [%d] prints). *)
Definition event_type_code (t : event_type_t) : Z :=
  match t with
  | EVENT_TYPE_DATA => 0
  | EVENT_TYPE_CONNECT => 1
  | EVENT_TYPE_DISCONNECT => 2
  | EVENT_TYPE_ERROR => 3
  end.

Record event_t : Type := mk_event {
  type : event_type_t;
  source : option string;          (* const char *source, NULL = None *)
  data : option (list Byte.byte);  (* const void *data,   NULL = None *)
  data_len : Z                     (* size_t *)
}.

(** ** eventlib.c: internal types *)

Definition block : Type := positive.

Record event_node_t : Type := mk_node {
  node_addr : block;               (* the node's own allocation *)
  event : event_t;
  source_copy : option block;      (* char *source_copy, owned *)
  data_copy : option block         (* void *data_copy, owned *)
}.

(** [processor_state_t] is a C enumeration, that is an integer. *)
Definition processor_state_t : Type := Z.
Definition STATE_IDLE : processor_state_t := 0.
Definition STATE_RUNNING : processor_state_t := 1.
Definition STATE_STOPPED : processor_state_t := 2.

(** The mutable part of [struct event_processor]. *)
Record event_processor : Type := mk_proc {
  name_copy : option block;
  state : processor_state_t;
  queue : list event_node_t;       (* queue_head ... queue_tail *)
  queue_size : Z;
  events_processed : Z
}.

(** The heap: live blocks and the outcomes of the next allocations
    ([true] = succeeds); past the end of [plan] allocations succeed. *)
Record heap : Type := mk_heap {
  live : gset block;
  plan : list bool
}.

(** One entry of the call trace: a hook invocation made by the library. *)
Inductive call : Type :=
| LogCall (level message : string)
| FilterCall (ev : event_t) (verdict : bool)
| EventCall (ev : event_t)
| StateChangeCall (old_state new_state : string).

(** A pointer to the processor: [NULL] or the machine's processor. *)
Inductive handle : Type := NULL | PTR.

Section Machine.

Context {W : Type}.

Record machine : Type := mk_machine {
  proc : event_processor;
  mem : heap;
  calls : list call;
  host : W                         (* whatever the host's hooks keep *)
}.

(** ** State passing *)

Definition St (A : Type) : Type := machine -> A * machine.

Definition ret {A : Type} (a : A) : St A := fun m => (a, m).

Definition bind {A B : Type} (c : St A) (k : A -> St B) : St B :=
  fun m => k (fst (c m)) (snd (c m)).

Notation "x <- c ;; k" := (bind c (fun x => k))
  (at level 100, c at next level, right associativity).
Notation "c ;;; k" := (bind c (fun _ => k))
  (at level 100, right associativity).

Definition get_proc : St event_processor := fun m => (proc m, m).

Definition put_proc (p : event_processor) : St unit :=
  fun m => (tt, mk_machine p (mem m) (calls m) (host m)).

Definition put_mem (h : heap) : St unit :=
  fun m => (tt, mk_machine (proc m) h (calls m) (host m)).

Definition record_call (c : call) : St unit :=
  fun m => (tt, mk_machine (proc m) (mem m) (calls m ++ [c]) (host m)).

Definition set_state (s : processor_state_t) (p : event_processor) :=
  mk_proc (name_copy p) s (queue p) (queue_size p) (events_processed p).

Definition set_queue (q : list event_node_t) (p : event_processor) :=
  mk_proc (name_copy p) (state p) q (queue_size p) (events_processed p).

Definition set_queue_size (n : Z) (p : event_processor) :=
  mk_proc (name_copy p) (state p) (queue p) n (events_processed p).

Definition set_events_processed (n : Z) (p : event_processor) :=
  mk_proc (name_copy p) (state p) (queue p) (queue_size p) n.

Definition modify_proc (f : event_processor -> event_processor) : St unit :=
  p <- get_proc ;; put_proc (f p).

(** ** malloc / calloc / strdup / free *)

Definition get_mem : St heap := fun m => (mem m, m).

(** The outcome of the next allocation. *)
Definition next_alloc_ok (h : heap) : bool :=
  match plan h with
  | [] => true
  | ok :: _ => ok
  end.

(** [malloc], [calloc] and [strdup] as far as ownership goes: a fresh
    live block, or [NULL]. *)
Definition malloc : St (option block) :=
  h <- get_mem ;;
  if next_alloc_ok h then
    let b := fresh (live h) in
    put_mem (mk_heap ({[ b ]} ∪ live h) (tail (plan h))) ;;;
    ret (Some b)
  else
    put_mem (mk_heap (live h) (tail (plan h))) ;;;
    ret None.

Definition free (p : option block) : St unit :=
  match p with
  | None => ret tt
  | Some b =>
      h <- get_mem ;;
      put_mem (mk_heap (live h ∖ {[ b ]}) (plan h))
  end.

(** ** Configuration (immutable after creation) *)

Record event_config_t : Type := mk_config {
  name : option string;
  max_queue_size : Z;
  enable_logging : bool;
  on_event : option (event_t -> Z -> St unit);
  on_log : option (string -> string -> Z -> St unit);
  on_filter : option (event_t -> Z -> St bool);
  on_state_change : option (string -> string -> Z -> St unit);
  user_data : Z
}.

(** [state_to_string] *)
Definition state_to_string (s : processor_state_t) : string :=
  if s =? STATE_IDLE then "IDLE"
  else if s =? STATE_RUNNING then "RUNNING"
  else if s =? STATE_STOPPED then "STOPPED"
  else "UNKNOWN".

(** [vsnprintf(buffer, sizeof(buffer), ...)] with [char buffer[256]]:
    the formatted text cut to 255 characters. *)
Definition vsnprintf256 (formatted : string) : string :=
  String.substring 0 255 formatted.

Section WithConfig.

Variable cfg : event_config_t.

(** [log_message] *)
Definition log_message (level formatted : string) : St unit :=
  match enable_logging cfg, on_log cfg with
  | true, Some hook =>
      let buffer := vsnprintf256 formatted in
      record_call (LogCall level buffer) ;;;
      hook level buffer (user_data cfg)
  | _, _ => ret tt
  end.

(** [change_state] *)
Definition change_state (new_state : processor_state_t) : St unit :=
  p <- get_proc ;;
  if state p =? new_state then ret tt
  else
    let old := state_to_string (state p) in
    let new := state_to_string new_state in
    log_message "INFO" ("State change: " +:+ old +:+ " -> " +:+ new) ;;;
    modify_proc (set_state new_state) ;;;
    match on_state_change cfg with
    | Some hook =>
        record_call (StateChangeCall old new) ;;;
        hook old new (user_data cfg)
    | None => ret tt
    end.

(** The candidate node of [event_processor_push] (the part of its body
    from [calloc] to the end of the data copy).  [None] when the node
    itself cannot be allocated.  A failed [strdup] or [malloc] of a copy
    leaves the field [NULL]; [data_len] is stored as given either way.
    [memcpy] copies the first [data_len] bytes of the caller's buffer. *)
Definition new_node (ty : event_type_t) (src : option string)
    (buf : option (list Byte.byte)) (len : Z) : St (option event_node_t) :=
  node <- malloc ;;
  match node with
  | None => ret None
  | Some addr =>
      sc <- match src with
            | Some _ => malloc
            | None => ret None
            end ;;
      dc <- match buf with
            | Some _ => if 0 <? len then malloc else ret None
            | None => ret None
            end ;;
      let ev_source := match sc with Some _ => src | None => None end in
      let ev_data :=
        match dc, buf with
        | Some _, Some bytes => Some (take (Z.to_nat len) bytes)
        | _, _ => None
        end in
      ret (Some (mk_node addr (mk_event ty ev_source ev_data len) sc dc))
  end.

(** "Add to queue": both branches of the source put the node last. *)
Definition enqueue (node : event_node_t) (p : event_processor)
    : event_processor :=
  match queue p with
  | [] => set_queue [node] p         (* queue_head = queue_tail = node *)
  | _ :: _ => set_queue (queue p ++ [node]) p  (* queue_tail->next = node *)
  end.

(** [event_processor_push] *)
Definition event_processor_push (h : handle) (ty : event_type_t)
    (src : option string) (buf : option (list Byte.byte)) (len : Z)
    : St bool :=
  match h with
  | NULL => ret false
  | PTR =>
      p <- get_proc ;;
      if (0 <? max_queue_size cfg) && (max_queue_size cfg <=? queue_size p)
      then
        log_message "WARN"
          ("Queue full (" +:+ pretty (queue_size p) +:+ " items)") ;;;
        ret false
      else
        candidate <- new_node ty src buf len ;;
        match candidate with
        | None => ret false
        | Some node =>
            keep <- match on_filter cfg with
                    | Some hook =>
                        verdict <- hook (event node) (user_data cfg) ;;
                        record_call (FilterCall (event node) verdict) ;;;
                        ret verdict
                    | None => ret true
                    end ;;
            if keep then
              modify_proc (enqueue node) ;;;
              modify_proc (fun p =>
                set_queue_size (size_wrap (queue_size p + 1)) p) ;;;
              p' <- get_proc ;;
              log_message "DEBUG"
                ("Event queued (type=" +:+ pretty (event_type_code ty) +:+
                 ", queue_size=" +:+ pretty (queue_size p') +:+ ")") ;;;
              ret true
            else
              log_message "DEBUG" "Event filtered out" ;;;
              free (source_copy node) ;;;
              free (data_copy node) ;;;
              free (Some (node_addr node)) ;;;
              ret true
        end
  end.

(** [event_processor_process] *)
Definition event_processor_process (h : handle) : St unit :=
  match h with
  | NULL => ret tt
  | PTR =>
      p <- get_proc ;;
      match queue p with
      | [] => ret tt
      | node :: rest =>
          if negb (state p =? STATE_RUNNING) then
            log_message "WARN" "Processor not running"
          else
            modify_proc (set_queue rest) ;;;
            modify_proc (fun p =>
              set_queue_size (size_wrap (queue_size p - 1)) p) ;;;
            log_message "DEBUG"
              ("Processing event (type=" +:+
               pretty (event_type_code (type (event node))) +:+ ")") ;;;
            match on_event cfg with
            | Some hook =>
                record_call (EventCall (event node)) ;;;
                hook (event node) (user_data cfg)
            | None => ret tt
            end ;;;
            modify_proc (fun p =>
              set_events_processed (size_wrap (events_processed p + 1)) p) ;;;
            free (source_copy node) ;;;
            free (data_copy node) ;;;
            free (Some (node_addr node))
      end
  end.

(** The [while (proc->queue_head)] loop of [event_processor_process_all].
    The loop has no bound of its own: [fuel] bounds the iterations of the
    model, and [None] means the loop is still running when it is spent. *)
Fixpoint process_all_loop (fuel : nat) (count : Z) (m : machine)
    : option (Z * machine) :=
  match queue (proc m) with
  | [] => Some (count, m)
  | _ :: _ =>
      match fuel with
      | O => None
      | S fuel' =>
          process_all_loop fuel' (size_wrap (count + 1))
            (snd (event_processor_process PTR m))
      end
  end.

(** [event_processor_process_all] *)
Definition event_processor_process_all (h : handle) (fuel : nat)
    (m : machine) : option (unit * machine) :=
  match h with
  | NULL => Some (tt, m)
  | PTR =>
      match process_all_loop fuel 0 m with
      | None => None
      | Some (count, m') =>
          if 0 <? count then
            Some (log_message "INFO"
                    ("Processed " +:+ pretty count +:+ " events") m')
          else Some (tt, m')
      end
  end.

(** [event_processor_start] *)
Definition event_processor_start (h : handle) : St unit :=
  match h with
  | NULL => ret tt
  | PTR => change_state STATE_RUNNING
  end.

(** [event_processor_stop] *)
Definition event_processor_stop (h : handle) : St unit :=
  match h with
  | NULL => ret tt
  | PTR => change_state STATE_STOPPED
  end.

(** The [while] loop of [event_processor_clear_queue]: it calls no hook,
    so it runs once per node of the queue it starts from. *)
Fixpoint clear_loop (q : list event_node_t) (cleared : Z) : St Z :=
  match q with
  | [] => ret cleared
  | node :: rest =>
      modify_proc (set_queue rest) ;;;
      free (source_copy node) ;;;
      free (data_copy node) ;;;
      free (Some (node_addr node)) ;;;
      clear_loop rest (size_wrap (cleared + 1))
  end.

(** [event_processor_clear_queue] *)
Definition event_processor_clear_queue (h : handle) : St unit :=
  match h with
  | NULL => ret tt
  | PTR =>
      p <- get_proc ;;
      cleared <- clear_loop (queue p) 0 ;;
      modify_proc (set_queue_size 0) ;;;
      if 0 <? cleared then
        log_message "INFO"
          ("Cleared " +:+ pretty cleared +:+ " events from queue")
      else ret tt
  end.

End WithConfig.

(** [event_processor_get_state] *)
Definition event_processor_get_state (h : handle) (m : machine) : string :=
  match h with
  | PTR => state_to_string (state (proc m))
  | NULL => "INVALID"
  end.

(** [event_processor_queue_size] *)
Definition event_processor_queue_size (h : handle) (m : machine) : Z :=
  match h with
  | PTR => queue_size (proc m)
  | NULL => 0
  end.

(** [event_processor_events_processed] *)
Definition event_processor_events_processed (h : handle) (m : machine) : Z :=
  match h with
  | PTR => events_processed (proc m)
  | NULL => 0
  end.

(** [event_processor_create]: the processor is built in the machine's
    [proc]; the configuration is the one every later call is given. *)
Definition event_processor_create (config : option event_config_t)
    : St handle :=
  match config with
  | None => ret NULL
  | Some cfg =>
      self <- malloc ;;
      match self with
      | None => ret NULL
      | Some _ =>
          nc <- match name cfg with
                | Some _ => malloc
                | None => ret None
                end ;;
          put_proc (mk_proc nc STATE_IDLE [] 0 0) ;;;
          let shown := match nc, name cfg with
                       | Some _, Some n => n
                       | _, _ => "unnamed"
                       end in
          log_message cfg "INFO"
            ("Event processor '" +:+ shown +:+ "' created") ;;;
          ret PTR
      end
  end.

End Machine.

Arguments machine : clear implicits.
Arguments event_config_t : clear implicits.
Arguments St : clear implicits.

(** * Specification vocabulary *)

Section Vocabulary.

Context {W : Type}.

(** The part of the machine the library owns: everything but the host
    state. *)
Definition lib (m : machine W) : event_processor * heap * list call :=
  (proc m, mem m, calls m).

(** A hook is passive when it leaves the library's part of the machine
    alone: it does not call back into the processor. *)
Definition passive {A : Type} (c : St W A) : Prop :=
  forall m, lib (snd (c m)) = lib m.

(** Every configured hook is passive. *)
Definition non_reentrant (cfg : event_config_t W) : Prop :=
  (forall hook, on_log cfg = Some hook ->
     forall level msg ud, passive (hook level msg ud)) /\
  (forall hook, on_event cfg = Some hook ->
     forall ev ud, passive (hook ev ud)) /\
  (forall hook, on_filter cfg = Some hook ->
     forall ev ud, passive (hook ev ud)) /\
  (forall hook, on_state_change cfg = Some hook ->
     forall old new ud, passive (hook old new ud)).

(** What [log_message] adds to the call trace. *)
Definition log_entry (cfg : event_config_t W) (level formatted : string)
    : list call :=
  match enable_logging cfg, on_log cfg with
  | true, Some _ => [LogCall level (vsnprintf256 formatted)]
  | _, _ => []
  end.

(** The capacity test of [event_processor_push]. *)
Definition queue_full (cfg : event_config_t W) (p : event_processor) : bool :=
  (0 <? max_queue_size cfg) && (max_queue_size cfg <=? queue_size p).

(** The verdict of the filter on a candidate: [true] without a filter. *)
Definition filter_verdict (cfg : event_config_t W) (node : event_node_t)
    (m1 : machine W) : bool :=
  match on_filter cfg with
  | Some hook => fst (hook (event node) (user_data cfg) m1)
  | None => true
  end.

(** What the filter step of [event_processor_push] adds to the trace. *)
Definition filter_entry (cfg : event_config_t W) (node : event_node_t)
    (verdict : bool) : list call :=
  match on_filter cfg with
  | Some _ => [FilterCall (event node) verdict]
  | None => []
  end.

(** What the consume step of [event_processor_process] adds to the trace. *)
Definition event_entry (cfg : event_config_t W) (node : event_node_t)
    : list call :=
  match on_event cfg with
  | Some _ => [EventCall (event node)]
  | None => []
  end.

(** What [change_state] tells the state-change hook and the log. *)
Definition state_change_entry (cfg : event_config_t W) (old new : string)
    : list call :=
  match on_state_change cfg with
  | Some _ => [StateChangeCall old new]
  | None => []
  end.

Definition state_change_text (old new : processor_state_t) : string :=
  "State change: " +:+ state_to_string old +:+ " -> " +:+ state_to_string new.

(** ** Calls of the public interface *)

Inductive api_call : Type :=
| CallPush (ty : event_type_t) (src : option string)
    (buf : option (list Byte.byte)) (len : Z)
| CallProcess
| CallProcessAll (fuel : nat)
| CallStart
| CallStop
| CallClearQueue.

(** The machine after one call, or [None] when [process_all] is still
    looping after [fuel] iterations. *)
Definition run_api (cfg : event_config_t W) (h : handle) (c : api_call)
    (m : machine W) : option (machine W) :=
  match c with
  | CallPush ty src buf len =>
      Some (snd (event_processor_push cfg h ty src buf len m))
  | CallProcess => Some (snd (event_processor_process cfg h m))
  | CallProcessAll fuel =>
      match event_processor_process_all cfg h fuel m with
      | Some r => Some (snd r)
      | None => None
      end
  | CallStart => Some (snd (event_processor_start cfg h m))
  | CallStop => Some (snd (event_processor_stop cfg h m))
  | CallClearQueue => Some (snd (event_processor_clear_queue cfg h m))
  end.

(** [n] successive [event_processor_process] calls. *)
Fixpoint process_times (cfg : event_config_t W) (n : nat) (m : machine W)
    : machine W :=
  match n with
  | O => m
  | S n' => process_times cfg n' (snd (event_processor_process cfg PTR m))
  end.

(** [max_queue_size] is a [size_t]. *)
Definition config_ok (cfg : event_config_t W) : Prop :=
  0 <= max_queue_size cfg < SIZE_MOD.

(** The queue invariant: the counter is the number of nodes (as a
    [size_t]), and a set capacity bounds the number of nodes. *)
Definition queue_inv (cfg : event_config_t W) (m : machine W) : Prop :=
  queue_size (proc m) = size_wrap (Z.of_nat (length (queue (proc m)))) /\
  (0 < max_queue_size cfg ->
   Z.of_nat (length (queue (proc m))) <= max_queue_size cfg).

(** The outcome of the [i]-th coming allocation. *)
Definition nth_alloc_ok (h : heap) (i : nat) : bool := nth i (plan h) true.

(** In the words of the specification: an internal allocation of a push
    (the node, the source copy, or the payload copy) fails. *)
Definition push_alloc_fails (src : option string)
    (buf : option (list Byte.byte)) (len : Z) (h : heap) : bool :=
  negb (nth_alloc_ok h 0)
  || (bool_decide (is_Some src) && negb (nth_alloc_ok h 1))
  || (bool_decide (is_Some buf) && (0 <? len)
      && negb (nth_alloc_ok h (match src with Some _ => 2 | None => 1 end))).

(** The copies a push makes once its node is allocated.  The source copy
    is the second allocation of the call and is attempted when there is a
    source; the payload copy comes next and is attempted when there is a
    buffer and [data_len > 0]. *)
Definition source_copy_made (src : option string) (h : heap) : bool :=
  bool_decide (is_Some src) && nth_alloc_ok h 1.

Definition data_copy_made (src : option string)
    (buf : option (list Byte.byte)) (len : Z) (h : heap) : bool :=
  bool_decide (is_Some buf) && (0 <? len)
  && nth_alloc_ok h (match src with Some _ => 2 | None => 1 end).

(** The arguments of one [event_processor_push] call. *)
Record push_args : Type := mk_args {
  arg_type : event_type_t;
  arg_source : option string;
  arg_data : option (list Byte.byte);
  arg_len : Z
}.

(** A sequence of pushes, with the value each one returned. *)
Fixpoint push_all (cfg : event_config_t W) (l : list push_args)
    (m : machine W) : list bool * machine W :=
  match l with
  | [] => ([], m)
  | a :: l' =>
      let r := event_processor_push cfg PTR (arg_type a) (arg_source a)
                 (arg_data a) (arg_len a) m in
      let rs := push_all cfg l' (snd r) in
      (fst r :: fst rs, snd rs)
  end.

End Vocabulary.

(** The event invariant of the data model: a present payload has a
    positive length, and a zero length has no payload. *)
Definition event_ok (ev : event_t) : Prop :=
  (is_Some (data ev) -> 0 < data_len ev) /\
  (data_len ev = 0 -> data ev = None).

(** The event a hook invocation was handed, if any. *)
Definition call_event (c : call) : option event_t :=
  match c with
  | FilterCall ev _ => Some ev
  | EventCall ev => Some ev
  | LogCall _ _ => None
  | StateChangeCall _ _ => None
  end.

Definition call_ok (c : call) : Prop :=
  match call_event c with
  | Some ev => event_ok ev
  | None => True
  end.

(** The events handed to the consume hook, in call order. *)
Definition delivered (cs : list call) : list event_t :=
  omap (fun c => match c with EventCall ev => Some ev | _ => None end) cs.

(** The events the filter hook rejected, in call order. *)
Definition rejected (cs : list call) : list event_t :=
  omap (fun c => match c with FilterCall ev false => Some ev | _ => None end) cs.

(** The state-change notifications, in call order. *)
Definition notified (cs : list call) : list (string * string) :=
  omap (fun c => match c with StateChangeCall o n => Some (o, n) | _ => None end) cs.

(** The event a push makes of its arguments when both copies succeed. *)
Definition exact_copy (a : push_args) : event_t :=
  mk_event (arg_type a) (arg_source a)
    (match arg_data a with
     | Some bytes =>
         if 0 <? arg_len a then Some (take (Z.to_nat (arg_len a)) bytes)
         else None
     | None => None
     end)
    (arg_len a).

(** The event of a push: the exact copy, less the fields whose copy could
    not be allocated. *)
Definition carried (a : push_args) (ev : event_t) : Prop :=
  type ev = arg_type a /\
  data_len ev = arg_len a /\
  (source ev = arg_source a \/ source ev = None) /\
  (data ev = data (exact_copy a) \/ data ev = None).

(** Every event held by the queue or handed to a hook so far is
    well formed. *)
Definition events_inv {W : Type} (m : machine W) : Prop :=
  Forall (fun n => event_ok (event n)) (queue (proc m)) /\
  Forall call_ok (calls m).

(** The blocks a queue node owns. *)
Definition opt_block (b : option block) : gset block :=
  match b with
  | Some x => {[ x ]}
  | None => ∅
  end.

Definition node_blocks (n : event_node_t) : gset block :=
  {[ node_addr n ]} ∪ opt_block (source_copy n) ∪ opt_block (data_copy n).

(** The invariants are decidable. *)
#[global] Instance event_ok_dec (ev : event_t) : Decision (event_ok ev).
Proof. unfold event_ok. apply _. Defined.

#[global] Instance call_ok_dec (c : call) : Decision (call_ok c).
Proof. unfold call_ok. destruct (call_event c); apply _. Defined.

#[global] Instance events_inv_dec {W : Type} (m : machine W) :
  Decision (events_inv m).
Proof. unfold events_inv. apply _. Defined.

(** * Example hosts and processors *)

Module Demo.

(** The host keeps one counter; every hook bumps it and leaves the
    processor alone. *)
Definition bump {A : Type} (a : A) : St nat A :=
  fun m => (a, mk_machine (proc m) (mem m) (calls m) (S (host m))).

Definition is_error (t : event_type_t) : bool :=
  match t with
  | EVENT_TYPE_ERROR => true
  | _ => false
  end.

(** All four hooks set, logging on, room for two events; the filter drops
    [EVENT_TYPE_ERROR]. *)
Definition cfg : event_config_t nat :=
  mk_config (Some "demo") 2 true
    (Some (fun _ _ => bump tt))
    (Some (fun _ _ _ => bump tt))
    (Some (fun ev _ => bump (negb (is_error (type ev)))))
    (Some (fun _ _ _ => bump tt))
    0.

(** No hook at all, no capacity. *)
Definition bare : event_config_t nat :=
  mk_config None 0 false None None None None 0.

(** Memory before the processor exists; [plan] lists the outcomes of the
    coming allocations. *)
Definition boot (plan : list bool) : machine nat :=
  mk_machine (mk_proc None STATE_IDLE [] 0 0) (mk_heap ∅ plan) [] O.

Definition created (c : event_config_t nat) (plan : list bool) : machine nat :=
  snd (event_processor_create (Some c) (boot plan)).

Definition payload : list Byte.byte := [Byte.x68; Byte.x69; Byte.x21].

Definition push_data (c : event_config_t nat) (m : machine nat)
    : bool * machine nat :=
  event_processor_push c PTR EVENT_TYPE_DATA (Some "sensor") (Some payload) 2 m.

Definition push_connect (c : event_config_t nat) (m : machine nat)
    : bool * machine nat :=
  event_processor_push c PTR EVENT_TYPE_CONNECT (Some "net") None 0 m.

Definition push_error (c : event_config_t nat) (m : machine nat)
    : bool * machine nat :=
  event_processor_push c PTR EVENT_TYPE_ERROR None (Some payload) 3 m.

(** A fresh (Idle) processor holding one event. *)
Definition idle_one (c : event_config_t nat) : machine nat :=
  snd (push_data c (created c [])).

(** A fresh (Idle) processor holding two events: full for [cfg]. *)
Definition idle_two (c : event_config_t nat) : machine nat :=
  snd (push_connect c (idle_one c)).

(** A fresh processor, started: Running with an empty queue. *)
Definition started (c : event_config_t nat) : machine nat :=
  snd (event_processor_start c PTR (created c [])).

Definition two_pushes : list push_args :=
  [mk_args EVENT_TYPE_DATA (Some "sensor") (Some payload) 2;
   mk_args EVENT_TYPE_CONNECT (Some "net") None 0].

(** The candidate [push_error] builds on [idle_one cfg]. *)
Definition error_candidate : event_node_t :=
  mk_node 6%positive (mk_event EVENT_TYPE_ERROR None (Some payload) 3) None (Some 7%positive).

(** A fresh processor of [bare] for which the third allocation to come
    (the payload copy of [push_data]) fails. *)
Definition starved : machine nat := created bare [true; true; true; false].

End Demo.

(** * The rest of the interface: teardown, call sequences, ownership *)

Section Lifecycle.

Context {W : Type}.

Notation "x <- c ;; k" := (bind c (fun x => k))
  (at level 100, c at next level, right associativity).
Notation "c ;;; k" := (bind c (fun _ => k))
  (at level 100, right associativity).

(** [event_processor_destroy].  The pointer it is given is the address
    of the processor's own allocation: [self] is that block, [None] for
    [NULL].  [proc->config.name] is the owned copy of the name, or [NULL]
    when there is none. *)
Definition event_processor_destroy (cfg : event_config_t W)
    (self : option block) : St W unit :=
  match self with
  | None => ret tt
  | Some b =>
      p <- get_proc ;;
      let shown := match name_copy p, name cfg with
                   | Some _, Some n => n
                   | _, _ => "unnamed"
                   end in
      log_message cfg "INFO"
        ("Destroying event processor '" +:+ shown +:+ "'") ;;;
      event_processor_clear_queue cfg PTR ;;;
      p' <- get_proc ;;
      free (name_copy p') ;;;
      free (Some b)
  end.

(** A sequence of interface calls on one processor; [None] when a
    [process_all] among them is still looping. *)
Fixpoint run_all (cfg : event_config_t W) (h : handle) (cs : list api_call)
    (m : machine W) : option (machine W) :=
  match cs with
  | [] => Some m
  | c :: cs' =>
      match run_api cfg h c m with
      | Some m' => run_all cfg h cs' m'
      | None => None
      end
  end.

(** The three levels the library logs at. *)
Definition log_levels : list string := ["DEBUG"; "INFO"; "WARN"].

(** The texts the library formats, each with the level it is logged at:
    one constructor for each [log_message] call of the source. *)
Inductive library_text : string -> string -> Prop :=
  | text_created (shown : string) :
      library_text "INFO" ("Event processor '" +:+ shown +:+ "' created")
  | text_destroying (shown : string) :
      library_text "INFO" ("Destroying event processor '" +:+ shown +:+ "'")
  | text_state_change (old new : processor_state_t) :
      library_text "INFO"
        ("State change: " +:+ state_to_string old +:+ " -> " +:+
         state_to_string new)
  | text_queue_full (size : Z) :
      library_text "WARN" ("Queue full (" +:+ pretty size +:+ " items)")
  | text_filtered :
      library_text "DEBUG" "Event filtered out"
  | text_queued (ty : event_type_t) (size : Z) :
      library_text "DEBUG"
        ("Event queued (type=" +:+ pretty (event_type_code ty) +:+
         ", queue_size=" +:+ pretty size +:+ ")")
  | text_not_running :
      library_text "WARN" "Processor not running"
  | text_processing (ty : event_type_t) :
      library_text "DEBUG"
        ("Processing event (type=" +:+ pretty (event_type_code ty) +:+ ")")
  | text_processed (count : Z) :
      library_text "INFO" ("Processed " +:+ pretty count +:+ " events")
  | text_cleared (cleared : Z) :
      library_text "INFO"
        ("Cleared " +:+ pretty cleared +:+ " events from queue").

(** A trace entry the library can have made under [cfg]: any hook
    invocation other than a log, or a log at one of the three levels whose
    message is the 255-character cut of one of the library's texts, made
    with logging enabled and a log hook set. *)
Definition emitted (cfg : event_config_t W) (c : call) : Prop :=
  match c with
  | LogCall level message =>
      enable_logging cfg = true /\ is_Some (on_log cfg) /\
      level ∈ log_levels /\
      exists formatted,
        library_text level formatted /\ message = vsnprintf256 formatted
  | _ => True
  end.

(** The trace of [m'] extends the trace of [m] by entries the library
    made. *)
Definition trace_grows (cfg : event_config_t W) (m m' : machine W) : Prop :=
  exists delta, calls m' = calls m ++ delta /\ Forall (emitted cfg) delta.

(** What [m'] has logged since [m]: every new log entry has one of the
    three levels, and its message is one of the library's texts cut to its
    first 255 characters. *)
Definition well_logged (m m' : machine W) : Prop :=
  exists delta,
    calls m' = calls m ++ delta /\
    forall level message,
      LogCall level message ∈ delta ->
      level ∈ log_levels /\
      exists formatted,
        library_text level formatted /\
        message = vsnprintf256 formatted /\
        String.list_ascii_of_string message
        = take 255 (String.list_ascii_of_string formatted) /\
        String.length message = Nat.min 255 (String.length formatted).

(** The stored state is one of the three enumerators. *)
Definition state_valid (m : machine W) : Prop :=
  state (proc m) = STATE_IDLE \/ state (proc m) = STATE_RUNNING \/
  state (proc m) = STATE_STOPPED.

End Lifecycle.

(** The log entries of a trace, in call order. *)
Definition log_entries (cs : list call) : list (string * string) :=
  omap (fun c => match c with LogCall l s => Some (l, s) | _ => None end) cs.

(** The blocks the nodes of a queue own. *)
Fixpoint queue_blocks (q : list event_node_t) : gset block :=
  match q with
  | [] => ∅
  | n :: q' => node_blocks n ∪ queue_blocks q'
  end.

(** No two nodes of a queue share a block. *)
Fixpoint nodes_disjoint (q : list event_node_t) : Prop :=
  match q with
  | [] => True
  | n :: q' => node_blocks n ## queue_blocks q' /\ nodes_disjoint q'
  end.

(** Everything the processor owns besides its own allocation. *)
Definition owned (p : event_processor) : gset block :=
  opt_block (name_copy p) ∪ queue_blocks (queue p).

(** The ownership invariant: the live blocks are those of [base] (the
    host's, and the processor's own allocation) and, apart from them, the
    name copy and the blocks of the queued nodes, no block being owned
    twice. *)
Definition heap_inv {W : Type} (base : gset block) (m : machine W) : Prop :=
  live (mem m) = base ∪ owned (proc m) /\
  base ## owned (proc m) /\
  opt_block (name_copy (proc m)) ## queue_blocks (queue (proc m)) /\
  nodes_disjoint (queue (proc m)).

#[global] Instance nodes_disjoint_dec (q : list event_node_t) :
  Decision (nodes_disjoint q).
Proof. induction q as [|n q IH]; cbn [nodes_disjoint]; apply _. Defined.

#[global] Instance heap_inv_dec {W : Type} (base : gset block)
    (m : machine W) : Decision (heap_inv base m).
Proof. unfold heap_inv. apply _. Defined.

(** More example processors and call sequences. *)
Module Tour.

(** [Demo.idle_two Demo.cfg], started: Running with two queued events. *)
Definition running_two : machine nat :=
  snd (event_processor_start Demo.cfg PTR (Demo.idle_two Demo.cfg)).

(** A session: push, start, process, two more pushes (the second one is
    dropped by the filter), stop, process, clear. *)
Definition session : list api_call :=
  [CallPush EVENT_TYPE_DATA (Some "sensor") (Some Demo.payload) 2;
   CallStart;
   CallProcess;
   CallPush EVENT_TYPE_CONNECT (Some "net") None 0;
   CallPush EVENT_TYPE_ERROR None (Some Demo.payload) 3;
   CallStop;
   CallProcess;
   CallClearQueue].

(** [Demo.cfg] with logging turned off. *)
Definition quiet : event_config_t nat :=
  mk_config (name Demo.cfg) (max_queue_size Demo.cfg) false
    (on_event Demo.cfg) (on_log Demo.cfg) (on_filter Demo.cfg)
    (on_state_change Demo.cfg) (user_data Demo.cfg).

(** A name of 300 characters, and [Demo.cfg] under that name: the
    announcement of its creation does not fit the log buffer. *)
Definition long_name : string :=
  String.concat "" (replicate 30 "xxxxxxxxxx").

Definition wordy : event_config_t nat :=
  mk_config (Some long_name) (max_queue_size Demo.cfg) true
    (on_event Demo.cfg) (on_log Demo.cfg) (on_filter Demo.cfg)
    (on_state_change Demo.cfg) (user_data Demo.cfg).

(** Where [session] takes a fresh processor of [c]. *)
Definition after_session (c : event_config_t nat) : machine nat :=
  default (Demo.created c [])
    (run_all c PTR session (Demo.created c [])).

End Tour.

(** * Proof automation *)

Ltac unfold_st :=
  unfold bind, ret, get_proc, put_proc, modify_proc, record_call, get_mem,
    put_mem;
  cbn [fst snd proc mem calls host].

(** * Basic facts *)

Section Basics.

Context {W : Type}.
Implicit Types (m : machine W) (cfg : event_config_t W).

Lemma size_wrap_small z : 0 <= z < SIZE_MOD -> size_wrap z = z.
Proof. intros H. unfold size_wrap. apply Z.mod_small. exact H. Qed.

Lemma passive_proc {A} (c : St W A) m : passive c -> proc (snd (c m)) = proc m.
Proof. intros H. specialize (H m). unfold lib in H. congruence. Qed.

Lemma passive_mem {A} (c : St W A) m : passive c -> mem (snd (c m)) = mem m.
Proof. intros H. specialize (H m). unfold lib in H. congruence. Qed.

Lemma passive_calls {A} (c : St W A) m : passive c -> calls (snd (c m)) = calls m.
Proof. intros H. specialize (H m). unfold lib in H. congruence. Qed.

Lemma log_message_lib cfg level s m :
  non_reentrant cfg ->
  lib (snd (log_message cfg level s m))
  = (proc m, mem m, calls m ++ log_entry cfg level s).
Proof.
  intros (Hlog & _). unfold log_message, log_entry.
  destruct (enable_logging cfg); [destruct (on_log cfg) as [hook|] eqn:E|];
    cbn; rewrite ?app_nil_r; try reflexivity.
  unfold bind. rewrite (Hlog hook eq_refl). reflexivity.
Qed.

Lemma malloc_spec m :
  let r := malloc m in
  proc (snd r) = proc m /\ calls (snd r) = calls m /\ host (snd r) = host m /\
  plan (mem (snd r)) = tail (plan (mem m)) /\
  match fst r with
  | Some b =>
      next_alloc_ok (mem m) = true /\
      (b ∉ live (mem m)) /\ live (mem (snd r)) = {[ b ]} ∪ live (mem m)
  | None =>
      next_alloc_ok (mem m) = false /\ live (mem (snd r)) = live (mem m)
  end.
Proof.
  unfold malloc, bind, get_mem, put_mem, ret. cbn [fst snd].
  destruct (next_alloc_ok (mem m)); cbn [fst snd proc mem calls host plan live];
    repeat split; try reflexivity.
  apply is_fresh.
Qed.

Lemma free_spec (b : option block) m :
  let r := free b m in
  proc (snd r) = proc m /\ calls (snd r) = calls m /\ host (snd r) = host m /\
  plan (mem (snd r)) = plan (mem m) /\
  live (mem (snd r)) = live (mem m) ∖ opt_block b.
Proof.
  unfold free. destruct b as [b|]; cbn; repeat split; try reflexivity.
  set_solver.
Qed.

Lemma free_proc (b : option block) m : proc (snd (free b m)) = proc m.
Proof. apply (free_spec b m). Qed.

Lemma free_calls (b : option block) m : calls (snd (free b m)) = calls m.
Proof. apply (free_spec b m). Qed.

Lemma free_plan (b : option block) m :
  plan (mem (snd (free b m))) = plan (mem m).
Proof. apply (free_spec b m). Qed.

Lemma free_live (b : option block) m :
  live (mem (snd (free b m))) = live (mem m) ∖ opt_block b.
Proof. apply (free_spec b m). Qed.

Lemma new_node_spec ty src buf len m :
  let r := new_node ty src buf len m in
  proc (snd r) = proc m /\ calls (snd r) = calls m /\ host (snd r) = host m /\
  match fst r with
  | None =>
      next_alloc_ok (mem m) = false /\ live (mem (snd r)) = live (mem m)
  | Some node =>
      next_alloc_ok (mem m) = true /\
      node_blocks node ## live (mem m) /\
      live (mem (snd r)) = node_blocks node ∪ live (mem m) /\
      type (event node) = ty /\
      data_len (event node) = len /\
      source (event node)
        = match source_copy node with Some _ => src | None => None end /\
      data (event node)
        = match data_copy node, buf with
          | Some _, Some bytes => Some (take (Z.to_nat len) bytes)
          | _, _ => None
          end /\
      (is_Some (source_copy node) -> is_Some src) /\
      (is_Some (data_copy node) -> is_Some buf /\ 0 < len)
  end.
Proof.
  unfold new_node, bind.
  pose proof (malloc_spec m) as H1. cbn zeta in H1.
  destruct (malloc m) as [[addr|] m1]; cbn [fst snd] in *;
    [|unfold ret; cbn [fst snd]; intuition congruence].
  destruct H1 as (Hp1 & Hc1 & Hh1 & _ & Hok & Hfresh1 & Hl1).
  assert (exists sc m2,
    match src with Some _ => malloc | None => ret None end m1 = (sc, m2) /\
    proc m2 = proc m1 /\ calls m2 = calls m1 /\ host m2 = host m1 /\
    (is_Some sc -> is_Some src) /\
    opt_block sc ## live (mem m1) /\
    live (mem m2) = opt_block sc ∪ live (mem m1)) as (sc & m2 & -> & Hp2 & Hc2 & Hh2 & Hs2 & Hd2 & Hl2).
  { destruct src as [s|].
    - pose proof (malloc_spec m1) as H2. cbn zeta in H2.
      destruct (malloc m1) as [[b|] m2]; cbn [fst snd] in *.
      + destruct H2 as (? & ? & ? & _ & _ & ? & ?).
        exists (Some b), m2. cbn. split_and!; try done; set_solver.
      + destruct H2 as (? & ? & ? & _ & _ & ?).
        exists None, m2. cbn. split_and!; try done; try (by intros [? ?]); set_solver.
    - exists None, m1. cbn. split_and!; try done; try (by intros [? ?]); set_solver. }
  cbn [fst snd].
  assert (exists dc m3,
    match buf with
    | Some _ => if 0 <? len then malloc else ret None
    | None => ret None
    end m2 = (dc, m3) /\
    proc m3 = proc m2 /\ calls m3 = calls m2 /\ host m3 = host m2 /\
    (is_Some dc -> is_Some buf /\ 0 < len) /\
    opt_block dc ## live (mem m2) /\
    live (mem m3) = opt_block dc ∪ live (mem m2)) as (dc & m3 & -> & Hp3 & Hc3 & Hh3 & Hs3 & Hd3 & Hl3).
  { destruct buf as [bytes|]; [destruct (0 <? len) eqn:Hlen|].
    - apply Z.ltb_lt in Hlen.
      pose proof (malloc_spec m2) as H3. cbn zeta in H3.
      destruct (malloc m2) as [[b|] m3]; cbn [fst snd] in *.
      + destruct H3 as (? & ? & ? & _ & _ & ? & ?).
        exists (Some b), m3. cbn. split_and!; try done; set_solver.
      + destruct H3 as (? & ? & ? & _ & _ & ?).
        exists None, m3. cbn. split_and!; try done; try (by intros [? ?]); set_solver.
    - exists None, m2. cbn. split_and!; try done; try (by intros [? ?]); set_solver.
    - exists None, m2. cbn. split_and!; try done; try (by intros [? ?]); set_solver. }
  unfold ret. cbn [fst snd event type data_len source data source_copy data_copy].
  unfold node_blocks. cbn [node_addr source_copy data_copy].
  split_and!; try congruence; try tauto.
  - rewrite Hl1 in Hd2. rewrite Hl2, Hl1 in Hd3. set_solver.
  - rewrite Hl3, Hl2, Hl1. set_solver.
Qed.

End Basics.

(** * The operations, one case at a time *)

Section Operations.

Context {W : Type}.
Implicit Types (m : machine W) (cfg : event_config_t W).

Lemma log_message_proc cfg level s m :
  non_reentrant cfg -> proc (snd (log_message cfg level s m)) = proc m.
Proof. intros NR. pose proof (log_message_lib cfg level s m NR) as H.
  unfold lib in H. congruence. Qed.

Lemma log_message_mem cfg level s m :
  non_reentrant cfg -> mem (snd (log_message cfg level s m)) = mem m.
Proof. intros NR. pose proof (log_message_lib cfg level s m NR) as H.
  unfold lib in H. congruence. Qed.

Lemma log_message_calls cfg level s m :
  non_reentrant cfg ->
  calls (snd (log_message cfg level s m)) = calls m ++ log_entry cfg level s.
Proof. intros NR. pose proof (log_message_lib cfg level s m NR) as H.
  unfold lib in H. congruence. Qed.

Lemma enqueue_eq (node : event_node_t) (p : event_processor) :
  enqueue node p = set_queue (queue p ++ [node]) p.
Proof. unfold enqueue. destruct (queue p); reflexivity. Qed.

(** ** push *)

Lemma push_null cfg ty src buf len m :
  event_processor_push cfg NULL ty src buf len m = (false, m).
Proof. reflexivity. Qed.

Lemma push_full cfg ty src buf len m :
  queue_full cfg (proc m) = true ->
  event_processor_push cfg PTR ty src buf len m
  = (false,
     snd (log_message cfg "WARN"
            ("Queue full (" +:+ pretty (queue_size (proc m)) +:+ " items)") m)).
Proof.
  intros Hfull. unfold event_processor_push, queue_full in *. unfold_st.
  rewrite Hfull. reflexivity.
Qed.

Lemma push_no_node cfg ty src buf len m :
  queue_full cfg (proc m) = false ->
  fst (new_node ty src buf len m) = None ->
  event_processor_push cfg PTR ty src buf len m
  = (false, snd (new_node ty src buf len m)).
Proof.
  intros Hfull Hnone. unfold event_processor_push, queue_full in *. unfold_st.
  rewrite Hfull, Hnone. reflexivity.
Qed.

Lemma push_returns_true cfg ty src buf len m node :
  queue_full cfg (proc m) = false ->
  fst (new_node ty src buf len m) = Some node ->
  fst (event_processor_push cfg PTR ty src buf len m) = true.
Proof.
  intros Hfull Hnode. unfold event_processor_push, queue_full in *. unfold_st.
  rewrite Hfull, Hnode. cbn [fst snd].
  destruct (on_filter cfg) as [hook|]; unfold_st.
  - destruct (fst (hook _ _ _)); reflexivity.
  - reflexivity.
Qed.

Lemma push_queued cfg ty src buf len m node :
  non_reentrant cfg ->
  queue_full cfg (proc m) = false ->
  fst (new_node ty src buf len m) = Some node ->
  filter_verdict cfg node (snd (new_node ty src buf len m)) = true ->
  let r := event_processor_push cfg PTR ty src buf len m in
  let n' := size_wrap (queue_size (proc m) + 1) in
  proc (snd r)
  = mk_proc (name_copy (proc m)) (state (proc m)) (queue (proc m) ++ [node])
      n' (events_processed (proc m)) /\
  mem (snd r) = mem (snd (new_node ty src buf len m)) /\
  calls (snd r)
  = calls m ++ filter_entry cfg node true ++
    log_entry cfg "DEBUG"
      ("Event queued (type=" +:+ pretty (event_type_code ty) +:+
       ", queue_size=" +:+ pretty n' +:+ ")").
Proof.
  intros NR Hfull Hnode Hv.
  pose proof (new_node_spec ty src buf len m) as Hnn. cbn zeta in Hnn.
  destruct Hnn as (Hp & Hc & _ & _).
  unfold event_processor_push, queue_full, filter_verdict, filter_entry in *.
  unfold_st. rewrite Hfull, Hnode. cbn [fst snd].
  pose proof NR as (_ & _ & NRf & _).
  destruct (on_filter cfg) as [hook|] eqn:Ef; unfold_st.
  - rewrite Hv. unfold_st.
    rewrite log_message_proc, log_message_mem, log_message_calls by exact NR.
    cbn [fst snd proc mem calls host].
    rewrite (passive_proc _ _ (NRf hook eq_refl _ _)).
    rewrite (passive_mem _ _ (NRf hook eq_refl _ _)).
    rewrite (passive_calls _ _ (NRf hook eq_refl _ _)).
    rewrite Hp, Hc, enqueue_eq. rewrite <- app_assoc. done.
  - rewrite log_message_proc, log_message_mem, log_message_calls by exact NR.
    cbn [fst snd proc mem calls host].
    rewrite Hp, Hc, enqueue_eq. done.
Qed.

Lemma push_filtered cfg ty src buf len m node :
  non_reentrant cfg ->
  queue_full cfg (proc m) = false ->
  fst (new_node ty src buf len m) = Some node ->
  filter_verdict cfg node (snd (new_node ty src buf len m)) = false ->
  let r := event_processor_push cfg PTR ty src buf len m in
  proc (snd r) = proc m /\
  live (mem (snd r)) = live (mem m) /\
  calls (snd r)
  = calls m ++ [FilterCall (event node) false] ++
    log_entry cfg "DEBUG" "Event filtered out" /\
  plan (mem (snd r)) = plan (mem (snd (new_node ty src buf len m))).
Proof.
  intros NR Hfull Hnode Hv.
  pose proof (new_node_spec ty src buf len m) as Hnn. cbn zeta in Hnn.
  rewrite Hnode in Hnn.
  destruct Hnn as (Hp & Hc & _ & _ & Hdisj & Hlive & _).
  unfold event_processor_push, queue_full, filter_verdict in *.
  unfold_st. rewrite Hfull, Hnode. cbn [fst snd].
  pose proof NR as (_ & _ & NRf & _).
  destruct (on_filter cfg) as [hook|] eqn:Ef; [|discriminate].
  unfold_st. rewrite Hv. unfold_st.
  rewrite !free_proc, !free_calls, !free_live, !free_plan.
  rewrite log_message_proc, log_message_mem, log_message_calls by exact NR.
  cbn [fst snd proc mem calls host].
  rewrite (passive_proc _ _ (NRf hook eq_refl _ _)).
  rewrite (passive_mem _ _ (NRf hook eq_refl _ _)).
  rewrite (passive_calls _ _ (NRf hook eq_refl _ _)).
  rewrite Hp, Hc, Hlive. rewrite <- app_assoc.
  split_and!; try done.
  unfold node_blocks in *. set_solver.
Qed.

(** The outcomes of a push, all in one. *)
Lemma push_cases cfg ty src buf len m :
  non_reentrant cfg ->
  let r := event_processor_push cfg PTR ty src buf len m in
  let n' := size_wrap (queue_size (proc m) + 1) in
  (fst r = false /\
   (queue_full cfg (proc m) = true \/ next_alloc_ok (mem m) = false) /\
   proc (snd r) = proc m /\
   live (mem (snd r)) = live (mem m) /\
   calls (snd r)
   = calls m ++
     (if queue_full cfg (proc m)
      then log_entry cfg "WARN"
             ("Queue full (" +:+ pretty (queue_size (proc m)) +:+ " items)")
      else []))
  \/
  (exists node,
     fst r = true /\
     queue_full cfg (proc m) = false /\
     next_alloc_ok (mem m) = true /\
     fst (new_node ty src buf len m) = Some node /\
     ((filter_verdict cfg node (snd (new_node ty src buf len m)) = true /\
       proc (snd r)
       = mk_proc (name_copy (proc m)) (state (proc m))
           (queue (proc m) ++ [node]) n' (events_processed (proc m)) /\
       live (mem (snd r)) = node_blocks node ∪ live (mem m) /\
       calls (snd r)
       = calls m ++ filter_entry cfg node true ++
         log_entry cfg "DEBUG"
           ("Event queued (type=" +:+ pretty (event_type_code ty) +:+
            ", queue_size=" +:+ pretty n' +:+ ")"))
      \/
      (filter_verdict cfg node (snd (new_node ty src buf len m)) = false /\
       proc (snd r) = proc m /\
       live (mem (snd r)) = live (mem m) /\
       calls (snd r)
       = calls m ++ [FilterCall (event node) false] ++
         log_entry cfg "DEBUG" "Event filtered out"))).
Proof.
  intros NR. cbn zeta.
  destruct (queue_full cfg (proc m)) eqn:Hfull.
  - left. rewrite push_full by exact Hfull. cbn [fst snd].
    rewrite log_message_proc, log_message_mem, log_message_calls by exact NR.
    split_and!; try done. by left.
  - pose proof (new_node_spec ty src buf len m) as Hnn. cbn zeta in Hnn.
    destruct (fst (new_node ty src buf len m)) as [node|] eqn:Hnode.
    + right. exists node.
      destruct Hnn as (_ & _ & _ & Hok & _ & Hlive & _).
      rewrite (push_returns_true cfg ty src buf len m node Hfull Hnode).
      split_and!; try done.
      destruct (filter_verdict cfg node (snd (new_node ty src buf len m)))
        eqn:Hv.
      * left.
        pose proof (push_queued cfg ty src buf len m node NR Hfull Hnode Hv)
          as (Hp & Hm & Hc).
        rewrite Hp, Hm, Hc, Hlive. done.
      * right.
        pose proof (push_filtered cfg ty src buf len m node NR Hfull Hnode Hv)
          as (Hp & Hm & Hc & _).
        rewrite Hp, Hm, Hc. done.
    + left. destruct Hnn as (Hp & Hc & _ & Hok & Hlive).
      rewrite push_no_node by assumption. cbn [fst snd].
      rewrite Hp, Hc, Hlive, app_nil_r. split_and!; try done. by right.
Qed.

Lemma new_node_event_ok ty src buf len m node :
  fst (new_node ty src buf len m) = Some node -> event_ok (event node).
Proof.
  intros Hnode.
  pose proof (new_node_spec ty src buf len m) as Hnn. cbn zeta in Hnn.
  rewrite Hnode in Hnn.
  destruct Hnn as (_ & _ & _ & _ & _ & _ & _ & Hlen & _ & Hdata & _ & Hdc).
  unfold event_ok. rewrite Hdata, Hlen.
  destruct (data_copy node) as [b|].
  - destruct (Hdc (ltac:(by eexists))) as [_ Hpos].
    split; [done | lia].
  - split; [by intros [? ?] | done].
Qed.

(** ** process *)

Lemma process_null cfg m : event_processor_process cfg NULL m = (tt, m).
Proof. reflexivity. Qed.

Lemma process_empty cfg h m :
  queue (proc m) = [] -> event_processor_process cfg h m = (tt, m).
Proof.
  intros Hq. destruct h; [reflexivity|].
  unfold event_processor_process. unfold_st. rewrite Hq. reflexivity.
Qed.

Lemma process_not_running cfg m node rest :
  queue (proc m) = node :: rest ->
  state (proc m) <> STATE_RUNNING ->
  event_processor_process cfg PTR m
  = log_message cfg "WARN" "Processor not running" m.
Proof.
  intros Hq Hs. unfold event_processor_process. unfold_st. rewrite Hq.
  apply Z.eqb_neq in Hs. rewrite Hs. reflexivity.
Qed.

Lemma process_running cfg m node rest :
  non_reentrant cfg ->
  queue (proc m) = node :: rest ->
  state (proc m) = STATE_RUNNING ->
  let r := event_processor_process cfg PTR m in
  proc (snd r)
  = mk_proc (name_copy (proc m)) (state (proc m)) rest
      (size_wrap (queue_size (proc m) - 1))
      (size_wrap (events_processed (proc m) + 1)) /\
  live (mem (snd r)) = live (mem m) ∖ node_blocks node /\
  plan (mem (snd r)) = plan (mem m) /\
  calls (snd r)
  = calls m ++
    log_entry cfg "DEBUG"
      ("Processing event (type=" +:+
       pretty (event_type_code (type (event node))) +:+ ")") ++
    event_entry cfg node.
Proof.
  intros NR Hq Hs. unfold event_processor_process, event_entry. unfold_st.
  rewrite Hq, Hs. cbn [Z.eqb Pos.eqb negb STATE_RUNNING].
  rewrite !free_proc, !free_calls, !free_live, !free_plan.
  pose proof NR as (_ & NRe & _ & _).
  destruct (on_event cfg) as [hook|] eqn:Ee; unfold_st.
  - rewrite (passive_proc _ _ (NRe hook eq_refl _ _)).
    rewrite (passive_mem _ _ (NRe hook eq_refl _ _)).
    rewrite (passive_calls _ _ (NRe hook eq_refl _ _)).
    cbn [fst snd proc mem calls host].
    rewrite log_message_proc, log_message_mem, log_message_calls by exact NR.
    cbn [fst snd proc mem calls host name_copy state queue queue_size
         events_processed set_queue set_queue_size set_events_processed].
    rewrite <- app_assoc. split_and!; try done.
    + unfold set_events_processed, set_queue_size, set_queue.
      cbn [name_copy state queue queue_size events_processed].
      by rewrite Hs.
    + unfold node_blocks, opt_block. set_solver.
  - rewrite log_message_proc, log_message_mem, log_message_calls by exact NR.
    cbn [fst snd proc mem calls host name_copy state queue queue_size
         events_processed set_queue set_queue_size set_events_processed].
    rewrite app_nil_r. split_and!; try done.
    + unfold set_events_processed, set_queue_size, set_queue.
      cbn [name_copy state queue queue_size events_processed].
      by rewrite Hs.
    + unfold node_blocks, opt_block. set_solver.
Qed.

(** ** change_state *)

Lemma change_state_same cfg m :
  change_state cfg (state (proc m)) m = (tt, m).
Proof. unfold change_state. unfold_st. rewrite Z.eqb_refl. reflexivity. Qed.

Lemma change_state_moves cfg s m :
  non_reentrant cfg ->
  state (proc m) <> s ->
  let r := change_state cfg s m in
  proc (snd r) = set_state s (proc m) /\
  mem (snd r) = mem m /\
  calls (snd r)
  = calls m ++
    log_entry cfg "INFO" (state_change_text (state (proc m)) s) ++
    state_change_entry cfg (state_to_string (state (proc m)))
      (state_to_string s).
Proof.
  intros NR Hs. unfold change_state, state_change_entry, state_change_text.
  unfold_st. apply Z.eqb_neq in Hs. rewrite Hs.
  pose proof NR as (_ & _ & _ & NRs).
  destruct (on_state_change cfg) as [hook|] eqn:Es; unfold_st.
  - rewrite (passive_proc _ _ (NRs hook eq_refl _ _ _)).
    rewrite (passive_mem _ _ (NRs hook eq_refl _ _ _)).
    rewrite (passive_calls _ _ (NRs hook eq_refl _ _ _)).
    cbn [fst snd proc mem calls host].
    rewrite log_message_proc, log_message_mem, log_message_calls by exact NR.
    rewrite <- app_assoc. done.
  - rewrite log_message_proc, log_message_mem, log_message_calls by exact NR.
    rewrite app_nil_r. done.
Qed.

(** ** clear_queue *)

Lemma clear_loop_spec (q : list event_node_t) (cleared : Z) m :
  let r := clear_loop q cleared m in
  fst r = match q with
          | [] => cleared
          | _ :: _ => size_wrap (cleared + Z.of_nat (length q))
          end /\
  proc (snd r) = match q with
                 | [] => proc m
                 | _ :: _ => set_queue [] (proc m)
                 end /\
  calls (snd r) = calls m /\
  plan (mem (snd r)) = plan (mem m).
Proof.
  revert cleared m. induction q as [|node rest IH]; intros cleared m.
  - cbn. done.
  - cbn [clear_loop]. unfold_st.
    match goal with
    | |- context [clear_loop rest ?c ?m0] => specialize (IH c m0)
    end.
    cbn zeta in IH. destruct IH as (IH1 & IH2 & IH3 & IH4).
    rewrite IH1, IH2, IH3, IH4.
    rewrite !free_proc, !free_calls, !free_plan.
    cbn [proc mem calls].
    split_and!; try done.
    + destruct rest as [|n' rest'].
      * cbn [length]. reflexivity.
      * unfold size_wrap. rewrite Zplus_mod_idemp_l.
        f_equal. cbn [length]. lia.
    + destruct rest; reflexivity.
Qed.

Lemma clear_queue_spec cfg m :
  non_reentrant cfg ->
  let r := event_processor_clear_queue cfg PTR m in
  let cleared := size_wrap (Z.of_nat (length (queue (proc m)))) in
  proc (snd r)
  = mk_proc (name_copy (proc m)) (state (proc m)) [] 0
      (events_processed (proc m)) /\
  calls (snd r)
  = calls m ++
    (if 0 <? cleared
     then log_entry cfg "INFO"
            ("Cleared " +:+ pretty cleared +:+ " events from queue")
     else []).
Proof.
  intros NR. unfold event_processor_clear_queue. unfold_st.
  pose proof (clear_loop_spec (queue (proc m)) 0 m) as H. cbn zeta in H.
  destruct H as (H1 & H2 & H3 & _).
  assert (fst (clear_loop (queue (proc m)) 0 m)
          = size_wrap (Z.of_nat (length (queue (proc m))))) as Hc.
  { rewrite H1. destruct (queue (proc m)); [reflexivity|]. f_equal. }
  rewrite Hc.
  destruct (0 <? size_wrap (Z.of_nat (length (queue (proc m))))).
  - rewrite log_message_proc, log_message_calls by exact NR.
    unfold_st. rewrite H2, H3.
    destruct (proc m) as [nc st q qs ep]; destruct q; done.
  - unfold_st. rewrite H2, H3, app_nil_r.
    destruct (proc m) as [nc st q qs ep]; destruct q; done.
Qed.

End Operations.

(** * Properties *)

Section Loops.

Context {W : Type}.
Implicit Types (m : machine W) (cfg : event_config_t W).

Lemma process_not_running_lib cfg h m :
  non_reentrant cfg ->
  state (proc m) <> STATE_RUNNING ->
  let m' := snd (event_processor_process cfg h m) in
  proc m' = proc m /\ mem m' = mem m /\
  calls m'
  = calls m ++
    match h, queue (proc m) with
    | PTR, _ :: _ => log_entry cfg "WARN" "Processor not running"
    | _, _ => []
    end.
Proof.
  intros NR Hs. destruct h; [cbn; by rewrite app_nil_r|].
  destruct (queue (proc m)) as [|node rest] eqn:Hq.
  - rewrite process_empty by exact Hq. cbn. by rewrite app_nil_r.
  - rewrite (process_not_running cfg m node rest Hq Hs). cbn zeta.
    by rewrite log_message_proc, log_message_mem, log_message_calls.
Qed.

(** While the processor is not Running and holds an event, the loop of
    [process_all] never reaches its exit. *)
Lemma process_all_loop_stuck cfg fuel count m :
  non_reentrant cfg ->
  state (proc m) <> STATE_RUNNING ->
  queue (proc m) <> [] ->
  process_all_loop cfg fuel count m = None.
Proof.
  intros NR. revert count m.
  induction fuel as [|fuel IH]; intros count m Hs Hq; cbn [process_all_loop];
    destruct (queue (proc m)) as [|node rest] eqn:Eq; try done.
  pose proof (process_not_running_lib cfg PTR m NR Hs) as (Hp & _ & _).
  apply IH; rewrite Hp; [exact Hs | by rewrite Eq].
Qed.

Lemma process_times_not_running cfg n m :
  non_reentrant cfg ->
  state (proc m) <> STATE_RUNNING ->
  let m' := process_times cfg n m in
  proc m' = proc m /\ mem m' = mem m /\
  calls m'
  = calls m ++
    concat (replicate n
      match queue (proc m) with
      | _ :: _ => log_entry cfg "WARN" "Processor not running"
      | [] => []
      end).
Proof.
  intros NR. revert m. induction n as [|n IH]; intros m Hs.
  - cbn. by rewrite app_nil_r.
  - cbn [process_times replicate concat].
    pose proof (process_not_running_lib cfg PTR m NR Hs) as (Hp & Hm & Hc).
    specialize (IH (snd (event_processor_process cfg PTR m))).
    rewrite Hp in IH. destruct (IH Hs) as (IHp & IHm & IHc).
    cbn zeta. rewrite IHp, IHm, IHc, Hm, Hc, app_assoc. done.
Qed.

(** On a Running processor the loop of [process_all] does exit: one
    iteration per queued node is enough, and it has done what that many
    [process] calls do. *)
Lemma process_all_loop_running cfg fuel count m :
  non_reentrant cfg ->
  state (proc m) = STATE_RUNNING ->
  (length (queue (proc m)) <= fuel)%nat ->
  exists count',
    process_all_loop cfg fuel count m
    = Some (count', process_times cfg (length (queue (proc m))) m).
Proof.
  intros NR. revert count m.
  induction fuel as [|fuel IH]; intros count m Hs Hlen;
    cbn [process_all_loop];
    destruct (queue (proc m)) as [|node rest] eqn:Eq;
    cbn [length] in *; try lia; try (by eexists).
  pose proof (process_running cfg m node rest NR Eq Hs) as (Hp & _).
  destruct (IH (size_wrap (count + 1))
              (snd (event_processor_process cfg PTR m))) as (count' & Hloop).
  - by rewrite Hp.
  - rewrite Hp. cbn [queue]. lia.
  - exists count'. rewrite Hloop, Hp. reflexivity.
Qed.

(** A property every [process] call keeps is kept by the loop. *)
Lemma process_all_loop_keeps cfg (P : machine W -> Prop) :
  (forall m, P m -> P (snd (event_processor_process cfg PTR m))) ->
  forall fuel count m r,
    P m -> process_all_loop cfg fuel count m = Some r -> P (snd r).
Proof.
  intros Hstep. induction fuel as [|fuel IH]; intros count m r HP;
    cbn [process_all_loop]; destruct (queue (proc m)); intros Hr;
    try discriminate; try (injection Hr as <-; exact HP).
  eapply IH; [|exact Hr]. by apply Hstep.
Qed.

End Loops.

(** * Invariants *)

Section Invariants.

Context {W : Type}.
Implicit Types (m : machine W) (cfg : event_config_t W).

Lemma log_entry_ok cfg level s : Forall call_ok (log_entry cfg level s).
Proof.
  unfold log_entry. destruct (enable_logging cfg), (on_log cfg);
    repeat constructor.
Qed.

Lemma start_stop_lib cfg s m :
  non_reentrant cfg ->
  let m' := snd (change_state cfg s m) in
  queue (proc m') = queue (proc m) /\
  queue_size (proc m') = queue_size (proc m) /\
  exists l, calls m' = calls m ++ l /\ Forall call_ok l.
Proof.
  intros NR. cbn zeta. destruct (decide (state (proc m) = s)) as [<-|Hne].
  - rewrite change_state_same. split_and!; try done.
    exists []. by rewrite app_nil_r.
  - pose proof (change_state_moves cfg s m NR Hne) as (Hp & _ & Hc).
    rewrite Hp, Hc. split_and!; try done.
    eexists; split; [reflexivity|].
    apply Forall_app; split; [apply log_entry_ok|].
    unfold state_change_entry. destruct (on_state_change cfg);
      repeat constructor.
Qed.

(** ** The event invariant *)

Lemma push_events_inv cfg h ty src buf len m :
  non_reentrant cfg -> events_inv m ->
  events_inv (snd (event_processor_push cfg h ty src buf len m)).
Proof.
  intros NR [Hq Hc]. destruct h; [done|].
  pose proof (push_cases cfg ty src buf len m NR) as Hcases. cbn zeta in Hcases.
  destruct Hcases as [(_ & _ & Hp & _ & Hcalls)
    | (node & _ & _ & _ & Hnode & [(_ & Hp & _ & Hcalls) | (_ & Hp & _ & Hcalls)])];
    unfold events_inv; rewrite Hp, Hcalls.
  - split; [done|]. apply Forall_app; split; [done|].
    destruct (queue_full cfg (proc m)); [apply log_entry_ok | constructor].
  - pose proof (new_node_event_ok _ _ _ _ _ _ Hnode) as Hok.
    cbn [queue]. split.
    + apply Forall_app; split; [done | by apply Forall_singleton].
    + rewrite !Forall_app. split_and!; [done | | apply log_entry_ok].
      unfold filter_entry.
      destruct (on_filter cfg); [by apply Forall_singleton | constructor].
  - pose proof (new_node_event_ok _ _ _ _ _ _ Hnode) as Hok.
    split; [done|].
    rewrite !Forall_app. split_and!; [done | | apply log_entry_ok].
    by apply Forall_singleton.
Qed.

Lemma process_events_inv cfg h m :
  non_reentrant cfg -> events_inv m ->
  events_inv (snd (event_processor_process cfg h m)).
Proof.
  intros NR [Hq Hc]. destruct h; [done|].
  destruct (decide (state (proc m) = STATE_RUNNING)) as [Hs|Hs].
  - destruct (queue (proc m)) as [|node rest] eqn:Eq.
    + rewrite process_empty by exact Eq.
      split; cbn [snd]; [by rewrite Eq | done].
    + pose proof (process_running cfg m node rest NR Eq Hs)
        as (Hp & _ & _ & Hcalls).
      unfold events_inv. rewrite Hp, Hcalls. cbn [queue].
      apply Forall_cons in Hq as [Hnode Hrest].
      split; [done|].
      rewrite !Forall_app. split_and!; [done | apply log_entry_ok |].
      unfold event_entry.
      destruct (on_event cfg); [by apply Forall_singleton | constructor].
  - pose proof (process_not_running_lib cfg PTR m NR Hs) as (Hp & _ & Hcalls).
    unfold events_inv. rewrite Hp, Hcalls. split; [done|].
    apply Forall_app; split; [done|].
    destruct (queue (proc m)); [constructor | apply log_entry_ok].
Qed.

Lemma run_api_events_inv cfg h c m m' :
  non_reentrant cfg -> events_inv m ->
  run_api cfg h c m = Some m' -> events_inv m'.
Proof.
  intros NR Hinv.
  destruct c as [ty src buf len| |fuel| | |]; cbn [run_api].
  - intros [= <-]. by apply push_events_inv.
  - intros [= <-]. by apply process_events_inv.
  - unfold event_processor_process_all. destruct h; [by intros [= <-]|].
    destruct (process_all_loop cfg fuel 0 m) as [[count m1]|] eqn:Eloop;
      [|done].
    assert (events_inv m1) as [Hq Hc].
    { apply (process_all_loop_keeps cfg events_inv
               (fun m0 => process_events_inv cfg PTR m0 NR)
               fuel 0 m (count, m1) Hinv Eloop). }
    destruct (0 <? count); intros [= <-]; [|done].
    unfold events_inv.
    rewrite log_message_proc, log_message_calls by exact NR.
    split; [done|]. apply Forall_app; split; [done | apply log_entry_ok].
  - intros [= <-]. destruct h; [done|]. cbn [event_processor_start].
    destruct Hinv as [Hq Hc].
    pose proof (start_stop_lib cfg STATE_RUNNING m NR)
      as (Hq' & _ & l & Hc' & Hl).
    unfold events_inv. rewrite Hq', Hc'. split; [done|].
    by apply Forall_app.
  - intros [= <-]. destruct h; [done|]. cbn [event_processor_stop].
    destruct Hinv as [Hq Hc].
    pose proof (start_stop_lib cfg STATE_STOPPED m NR)
      as (Hq' & _ & l & Hc' & Hl).
    unfold events_inv. rewrite Hq', Hc'. split; [done|].
    by apply Forall_app.
  - intros [= <-]. destruct h; [done|].
    destruct Hinv as [Hq Hc].
    pose proof (clear_queue_spec cfg m NR) as (Hp & Hcalls).
    unfold events_inv. rewrite Hp, Hcalls. cbn [queue]. split; [done|].
    apply Forall_app; split; [done|].
    destruct (0 <? _); [apply log_entry_ok | constructor].
Qed.

Lemma create_lib cfg m :
  non_reentrant cfg ->
  let r := event_processor_create (Some cfg) m in
  match fst r with
  | NULL => proc (snd r) = proc m /\ calls (snd r) = calls m
  | PTR =>
      state (proc (snd r)) = STATE_IDLE /\
      queue (proc (snd r)) = [] /\
      queue_size (proc (snd r)) = 0 /\
      events_processed (proc (snd r)) = 0 /\
      exists l, calls (snd r) = calls m ++ l /\ Forall call_ok l
  end.
Proof.
  intros NR. unfold event_processor_create. unfold_st.
  pose proof (malloc_spec m) as H1. cbn zeta in H1.
  destruct (malloc m) as [[self|] m1]; cbn [fst snd] in *;
    [|unfold_st; by destruct H1 as (-> & -> & _)].
  destruct H1 as (_ & Hc1 & _).
  unfold_st.
  rewrite log_message_proc, log_message_calls by exact NR.
  cbn [proc calls state queue queue_size events_processed].
  split_and!; try done.
  eexists; split; [|apply log_entry_ok].
  f_equal. rewrite <- Hc1.
  destruct (name cfg); [|done].
  pose proof (malloc_spec m1) as H2. cbn zeta in H2. by destruct H2 as (_ & -> & _).
Qed.

(** ** The queue invariant *)

Lemma push_queue_inv cfg h ty src buf len m :
  non_reentrant cfg -> config_ok cfg -> queue_inv cfg m ->
  queue_inv cfg (snd (event_processor_push cfg h ty src buf len m)).
Proof.
  intros NR Hcfg [Hsz Hcap]. destruct h; [done|].
  pose proof (push_cases cfg ty src buf len m NR) as Hcases. cbn zeta in Hcases.
  destruct Hcases as [(_ & _ & Hp & _ & _)
    | (node & _ & Hfull & _ & _ & [(_ & Hp & _ & _) | (_ & Hp & _ & _)])];
    unfold queue_inv; rewrite Hp; try done.
  cbn [queue queue_size]. rewrite length_app. cbn [length].
  unfold queue_full in Hfull. unfold config_ok in Hcfg.
  split.
  - rewrite Hsz. unfold size_wrap. rewrite Zplus_mod_idemp_l. f_equal. lia.
  - intros Hpos. specialize (Hcap Hpos).
    rewrite size_wrap_small in Hsz by lia.
    apply andb_false_iff in Hfull as [Hf|Hf]; [apply Z.ltb_ge in Hf; lia|].
    apply Z.leb_gt in Hf. lia.
Qed.

Lemma process_queue_inv cfg h m :
  non_reentrant cfg -> queue_inv cfg m ->
  queue_inv cfg (snd (event_processor_process cfg h m)).
Proof.
  intros NR [Hsz Hcap]. destruct h; [done|].
  destruct (decide (state (proc m) = STATE_RUNNING)) as [Hs|Hs].
  - destruct (queue (proc m)) as [|node rest] eqn:Eq.
    + rewrite process_empty by exact Eq. unfold queue_inv. cbn [snd].
      by rewrite Eq.
    + pose proof (process_running cfg m node rest NR Eq Hs) as (Hp & _).
      unfold queue_inv. rewrite Hp. cbn [queue queue_size length] in *.
      split.
      * rewrite Hsz. unfold size_wrap. rewrite Zminus_mod_idemp_l.
        f_equal. lia.
      * intros Hpos. specialize (Hcap Hpos). lia.
  - pose proof (process_not_running_lib cfg PTR m NR Hs) as (Hp & _).
    unfold queue_inv. by rewrite Hp.
Qed.

Lemma run_api_queue_inv cfg h c m m' :
  non_reentrant cfg -> config_ok cfg -> queue_inv cfg m ->
  run_api cfg h c m = Some m' -> queue_inv cfg m'.
Proof.
  intros NR Hcfg Hinv.
  destruct c as [ty src buf len| |fuel| | |]; cbn [run_api].
  - intros [= <-]. by apply push_queue_inv.
  - intros [= <-]. by apply process_queue_inv.
  - unfold event_processor_process_all. destruct h; [by intros [= <-]|].
    destruct (process_all_loop cfg fuel 0 m) as [[count m1]|] eqn:Eloop;
      [|done].
    assert (queue_inv cfg m1) as Hinv1.
    { apply (process_all_loop_keeps cfg (queue_inv cfg)
               (fun m0 => process_queue_inv cfg PTR m0 NR)
               fuel 0 m (count, m1) Hinv Eloop). }
    destruct (0 <? count); intros [= <-]; [|done].
    unfold queue_inv. by rewrite log_message_proc.
  - intros [= <-]. destruct h; [done|]. cbn [event_processor_start].
    pose proof (start_stop_lib cfg STATE_RUNNING m NR) as (Hq' & Hs' & _).
    unfold queue_inv. by rewrite Hq', Hs'.
  - intros [= <-]. destruct h; [done|]. cbn [event_processor_stop].
    pose proof (start_stop_lib cfg STATE_STOPPED m NR) as (Hq' & Hs' & _).
    unfold queue_inv. by rewrite Hq', Hs'.
  - intros [= <-]. destruct h; [done|].
    pose proof (clear_queue_spec cfg m NR) as (Hp & _).
    unfold queue_inv. rewrite Hp. cbn. split; [done | lia].
Qed.

End Invariants.

(** * First in, first out *)

Section Fifo.

Context {W : Type}.
Implicit Types (m : machine W) (cfg : event_config_t W).

Lemma delivered_log_entry cfg level s : delivered (log_entry cfg level s) = [].
Proof. unfold log_entry. by destruct (enable_logging cfg), (on_log cfg). Qed.

Lemma rejected_log_entry cfg level s : rejected (log_entry cfg level s) = [].
Proof. unfold log_entry. by destruct (enable_logging cfg), (on_log cfg). Qed.

Lemma delivered_filter_entry cfg node v : delivered (filter_entry cfg node v) = [].
Proof. unfold filter_entry. by destruct (on_filter cfg). Qed.

Lemma rejected_filter_entry cfg node : rejected (filter_entry cfg node true) = [].
Proof. unfold filter_entry. by destruct (on_filter cfg). Qed.

(** With no allocation failure ahead, the candidate is the exact copy
    and no failure lies ahead afterwards either. *)
Lemma new_node_exact ty src buf len m :
  plan (mem m) = [] ->
  plan (mem (snd (new_node ty src buf len m))) = [] /\
  exists node,
    fst (new_node ty src buf len m) = Some node /\
    event node = exact_copy (mk_args ty src buf len).
Proof.
  intros Hplan. unfold new_node, malloc, exact_copy.
  unfold_st. unfold next_alloc_ok. rewrite Hplan. unfold_st.
  destruct src as [s0|], buf as [bytes|]; cbn [arg_data arg_len];
    try destruct (0 <? len);
    unfold_st; unfold next_alloc_ok; cbn [plan live mem tail fst snd];
    (split; [reflexivity | eexists; split; reflexivity]).
Qed.

(** One push, as the queue and the trace see it. *)
Lemma push_step cfg (a : push_args) m :
  non_reentrant cfg ->
  let r := event_processor_push cfg PTR (arg_type a) (arg_source a)
             (arg_data a) (arg_len a) m in
  state (proc (snd r)) = state (proc m) /\
  delivered (calls (snd r)) = delivered (calls m) /\
  (plan (mem m) = [] -> plan (mem (snd r)) = []) /\
  ((fst r = true /\
    rejected (calls (snd r)) = rejected (calls m) /\
    exists node,
      queue (proc (snd r)) = queue (proc m) ++ [node] /\
      carried a (event node) /\
      (plan (mem m) = [] -> event node = exact_copy a))
   \/
   (fst r = false /\ queue (proc (snd r)) = queue (proc m))
   \/
   (exists ev, rejected (calls (snd r)) = rejected (calls m) ++ [ev])).
Proof.
  intros NR. cbn zeta. destruct a as [ty src buf len]. cbn [arg_type arg_source arg_data arg_len].
  pose proof (push_cases cfg ty src buf len m NR) as Hcases. cbn zeta in Hcases.
  destruct Hcases as [(Hr & Hwhy & Hp & Hl & Hc)
    | (node & Hr & Hfull & Hok & Hnode & [(Hv & Hp & _ & Hc) | (Hv & Hp & _ & Hc)])].
  - rewrite Hp, Hc. unfold delivered. rewrite omap_app.
    split_and!; try done.
    + destruct (queue_full cfg (proc m));
        [fold (delivered (log_entry cfg "WARN"
           ("Queue full (" +:+ pretty (queue_size (proc m)) +:+ " items)")));
         rewrite delivered_log_entry|]; by rewrite app_nil_r.
    + intros Hplan. destruct Hwhy as [Hfull | Hno].
      * rewrite push_full by exact Hfull. cbn [snd].
        by rewrite log_message_mem.
      * unfold next_alloc_ok in Hno. by rewrite Hplan in Hno.
    + right; left. by rewrite Hr.
  - pose proof (push_queued cfg ty src buf len m node NR Hfull Hnode Hv)
      as (_ & Hm & _).
    pose proof (new_node_spec ty src buf len m) as Hnn. cbn zeta in Hnn.
    rewrite Hnode in Hnn.
    destruct Hnn as (_ & _ & _ & _ & _ & _ & Hty & Hlen & Hsrc & Hdata & _ & Hdc).
    rewrite Hp, Hc, Hm. cbn [state queue].
    unfold delivered, rejected. rewrite !omap_app.
    fold (delivered (filter_entry cfg node true)).
    fold (rejected (filter_entry cfg node true)).
    match goal with |- context [log_entry cfg ?l ?t] =>
      fold (delivered (log_entry cfg l t)); fold (rejected (log_entry cfg l t))
    end.
    rewrite delivered_filter_entry, rejected_filter_entry,
      delivered_log_entry, rejected_log_entry, !app_nil_r.
    split_and!; try done.
    + intros Hplan. by apply new_node_exact.
    + left. split_and!; try done. exists node. split_and!; try done.
      * unfold carried, exact_copy. cbn [arg_type arg_source arg_data arg_len data].
        rewrite Hty, Hlen, Hsrc, Hdata. split_and!; try done.
        -- destruct (source_copy node); [by left | by right].
        -- destruct (data_copy node) as [b|]; [|by right].
           destruct (Hdc (ltac:(by eexists))) as [[bytes ->] Hpos].
           left. apply Z.ltb_lt in Hpos. by rewrite Hpos.
      * intros Hplan.
        destruct (new_node_exact ty src buf len m Hplan) as (_ & node' & Hn' & He).
        congruence.
  - pose proof (push_filtered cfg ty src buf len m node NR Hfull Hnode Hv)
      as (_ & _ & _ & Hplan').
    rewrite Hp, Hc.
    unfold delivered, rejected. rewrite !omap_app.
    match goal with |- context [log_entry cfg ?l ?t] =>
      fold (delivered (log_entry cfg l t)); fold (rejected (log_entry cfg l t))
    end.
    rewrite delivered_log_entry, rejected_log_entry. cbn [omap].
    rewrite !app_nil_r.
    split_and!; try done.
    + intros Hplan. rewrite Hplan'. by apply new_node_exact.
    + right; right. by exists (event node).
Qed.

(** A run of pushes that all returned true with no candidate rejected
    appended one node per push, in push order. *)
Lemma push_all_appends cfg (l : list push_args) m :
  non_reentrant cfg ->
  let r := push_all cfg l m in
  state (proc (snd r)) = state (proc m) /\
  delivered (calls (snd r)) = delivered (calls m) /\
  exists rej,
    rejected (calls (snd r)) = rejected (calls m) ++ rej /\
    (Forall (fun b => b = true) (fst r) -> rej = [] ->
     exists nodes,
       queue (proc (snd r)) = queue (proc m) ++ nodes /\
       Forall2 carried l (map event nodes) /\
       (plan (mem m) = [] -> map event nodes = map exact_copy l)).
Proof.
  intros NR. revert m. induction l as [|a l IH]; intros m; cbn [push_all].
  - cbn zeta. cbn [fst snd]. split_and!; try done.
    exists []. rewrite app_nil_r. split; [done|]. intros _ _.
    exists []. rewrite app_nil_r. split_and!; try done; constructor.
  - cbn zeta. cbn [fst snd].
    pose proof (push_step cfg a m NR) as Hstep. cbn zeta in Hstep.
    set (r1 := event_processor_push cfg PTR (arg_type a) (arg_source a)
                 (arg_data a) (arg_len a) m) in *.
    destruct Hstep as (Hs1 & Hd1 & Hpl1 & Hcase).
    specialize (IH (snd r1)). cbn zeta in IH.
    destruct IH as (Hs2 & Hd2 & rej2 & Hrej2 & IH).
    rewrite Hs2, Hs1, Hd2, Hd1. split_and!; try done.
    destruct Hcase as [(Hr & Hrej1 & node & Hq1 & Hcar & Hex)
                      | [(Hr & Hq1) | (ev & Hrej1)]].
    + exists rej2. rewrite Hrej2, Hrej1. split; [done|].
      intros Hall Hnil. apply Forall_cons in Hall as [_ Hall].
      destruct (IH Hall Hnil) as (nodes & Hq2 & Hf2 & Hex2).
      exists (node :: nodes). rewrite Hq2, Hq1, <- app_assoc.
      split_and!; try done.
      * cbn [map]. by constructor.
      * intros Hplan. cbn [map]. rewrite (Hex Hplan).
        by rewrite (Hex2 (Hpl1 Hplan)).
    + assert (exists rej1, rejected (calls (snd r1)) = rejected (calls m) ++ rej1)
        as (rej1 & Hrej1).
      { subst r1. destruct a as [ty src buf len].
        cbn [arg_type arg_source arg_data arg_len] in *.
        pose proof (push_cases cfg ty src buf len m NR) as Hcases.
        cbn zeta in Hcases.
        destruct Hcases as [(_ & _ & _ & _ & Hc) | (node & Hr' & _)];
          [|congruence].
        exists []. rewrite Hc. unfold rejected. rewrite omap_app.
        destruct (queue_full cfg (proc m));
          [match goal with |- context [log_entry cfg ?l ?t] =>
             fold (rejected (log_entry cfg l t)) end;
           by rewrite rejected_log_entry | done]. }
      exists (rej1 ++ rej2). rewrite Hrej2, Hrej1, app_assoc.
      split; [done|]. intros Hall _.
      apply Forall_cons in Hall as [Hall _]. congruence.
    + exists (ev :: rej2). rewrite Hrej2, Hrej1, <- app_assoc.
      split; [done|]. intros _ Hnil. discriminate.
Qed.

(** [n] process calls on a Running processor consume the first [n]
    nodes, handing their events to the consume hook in queue order. *)
Lemma process_times_running cfg n m :
  non_reentrant cfg ->
  state (proc m) = STATE_RUNNING ->
  let m' := process_times cfg n m in
  state (proc m') = STATE_RUNNING /\
  queue (proc m') = drop n (queue (proc m)) /\
  delivered (calls m')
  = delivered (calls m) ++
    match on_event cfg with
    | Some _ => map event (take n (queue (proc m)))
    | None => []
    end.
Proof.
  intros NR. revert m. induction n as [|n IH]; intros m Hs.
  - cbn. rewrite drop_0. destruct (on_event cfg); by rewrite app_nil_r.
  - cbn [process_times].
    destruct (queue (proc m)) as [|node rest] eqn:Eq.
    + rewrite process_empty by exact Eq. cbn [snd].
      destruct (IH m Hs) as (IH1 & IH2 & IH3).
      cbn zeta. rewrite IH1, IH2, IH3, Eq.
      by rewrite drop_nil, take_nil.
    + pose proof (process_running cfg m node rest NR Eq Hs)
        as (Hp & _ & _ & Hc).
      specialize (IH (snd (event_processor_process cfg PTR m))).
      rewrite Hp in IH. cbn [state queue] in IH.
      destruct (IH Hs) as (IH1 & IH2 & IH3).
      cbn zeta. rewrite IH1, IH2, IH3, Hc. cbn [drop take map].
      unfold delivered, event_entry. rewrite !omap_app.
      match goal with |- context [log_entry cfg ?l ?t] =>
        fold (delivered (log_entry cfg l t)) end.
      rewrite delivered_log_entry.
      split_and!; try done.
      destruct (on_event cfg); cbn; by rewrite <- ?app_assoc, ?app_nil_r.
Qed.

End Fifo.

(** * The candidate of a push, field by field *)

Section Candidate.

Context {W : Type}.
Implicit Types (m : machine W).

(** Each field of the candidate's event is the caller's value when its
    copy was made and absent otherwise; the type and [data_len] are the
    arguments. *)
Lemma new_node_copies ty src buf len m node :
  fst (new_node ty src buf len m) = Some node ->
  type (event node) = ty /\
  data_len (event node) = len /\
  source (event node)
  = (if source_copy_made src (mem m) then src else None) /\
  data (event node)
  = (if data_copy_made src buf len (mem m)
     then match buf with
          | Some bytes => Some (take (Z.to_nat len) bytes)
          | None => None
          end
     else None) /\
  (is_Some (source_copy node) <-> source_copy_made src (mem m) = true) /\
  (is_Some (data_copy node) <-> data_copy_made src buf len (mem m) = true).
Proof.
  unfold new_node, malloc, source_copy_made, data_copy_made, nth_alloc_ok.
  unfold_st. unfold next_alloc_ok.
  destruct (plan (mem m)) as [|a [|b [|c rest]]];
    try destruct a; try destruct b; try destruct c;
    destruct src as [s0|], buf as [bytes|]; try destruct (0 <? len);
    unfold_st; unfold next_alloc_ok;
    cbn [plan live mem tail fst snd nth bool_decide andb];
    intros [= <-]; cbn;
    split_and!; try reflexivity; try (split; [by intros [? ?] | done]);
    try (split; [done | by eexists]).
Qed.

End Candidate.

Lemma demo_cfg_non_reentrant : non_reentrant Demo.cfg.
Proof.
  unfold non_reentrant, Demo.cfg; cbn.
  split_and!; intros hook [= <-]; intros; intros m; reflexivity.
Qed.

Lemma demo_bare_non_reentrant : non_reentrant Demo.bare.
Proof. unfold non_reentrant, Demo.bare; cbn. split_and!; intros hook [=]. Qed.

Section Claims.

Context {W : Type}.
Implicit Types (m : machine W) (cfg : event_config_t W).

(** C10. On an empty queue [process] returns at once and the whole
    machine is as before: no warning is logged and no hook is invoked,
    whatever the state (Idle and Stopped included), because the
    empty-queue test comes before the state test. *)
Theorem process_empty_queue_silent cfg h m :
  queue (proc m) = [] ->
  event_processor_process cfg h m = (tt, m) /\
  calls (snd (event_processor_process cfg h m)) = calls m /\
  event_processor_get_state h (snd (event_processor_process cfg h m))
  = event_processor_get_state h m.
Proof. intros Hq. rewrite process_empty by exact Hq. done. Qed.

(** C7. In state Idle or Stopped a [process] call dequeues nothing: the
    queue, [queue_size], [events_processed] and the state are unchanged,
    nothing is freed, and the consume hook is not invoked (the only trace
    entry is the warning, when the queue was not empty). *)
Theorem process_state_gating cfg h m :
  non_reentrant cfg ->
  state (proc m) = STATE_IDLE \/ state (proc m) = STATE_STOPPED ->
  let m' := snd (event_processor_process cfg h m) in
  queue (proc m') = queue (proc m) /\
  event_processor_queue_size h m' = event_processor_queue_size h m /\
  event_processor_events_processed h m' = event_processor_events_processed h m /\
  event_processor_get_state h m' = event_processor_get_state h m /\
  proc m' = proc m /\ mem m' = mem m /\
  delivered (calls m') = delivered (calls m) /\
  calls m'
  = calls m ++
    match h, queue (proc m) with
    | PTR, _ :: _ => log_entry cfg "WARN" "Processor not running"
    | _, _ => []
    end.
Proof.
  intros NR Hs.
  assert (state (proc m) <> STATE_RUNNING) as Hnr
    by (destruct Hs as [-> | ->]; discriminate).
  pose proof (process_not_running_lib cfg h m NR Hnr) as (Hp & Hm & Hc).
  cbn zeta.
  unfold event_processor_queue_size, event_processor_events_processed,
    event_processor_get_state.
  rewrite Hp, Hm, Hc. split_and!; try done.
  unfold delivered, log_entry. rewrite omap_app.
  destruct h, (queue (proc m)), (enable_logging cfg), (on_log cfg);
    cbn; by rewrite app_nil_r.
Qed.

(** C9. The three queries only read the machine.  On a null handle they
    answer "INVALID", 0 and 0; on a valid handle [get_state] answers
    "IDLE", "RUNNING" or "STOPPED" for the three states and "UNKNOWN" for
    any other stored value, and the counters are the stored fields. *)
Theorem queries_total_and_pure m (s : processor_state_t) :
  s <> STATE_IDLE -> s <> STATE_RUNNING -> s <> STATE_STOPPED ->
  let at_state v :=
    mk_machine (set_state v (proc m)) (mem m) (calls m) (host m) in
  (event_processor_get_state NULL m = "INVALID" /\
   event_processor_queue_size NULL m = 0 /\
   event_processor_events_processed NULL m = 0) /\
  (event_processor_get_state PTR (at_state STATE_IDLE) = "IDLE" /\
   event_processor_get_state PTR (at_state STATE_RUNNING) = "RUNNING" /\
   event_processor_get_state PTR (at_state STATE_STOPPED) = "STOPPED" /\
   event_processor_get_state PTR (at_state s) = "UNKNOWN") /\
  (event_processor_get_state PTR m = state_to_string (state (proc m)) /\
   event_processor_queue_size PTR m = queue_size (proc m) /\
   event_processor_events_processed PTR m = events_processed (proc m)).
Proof.
  intros H0 H1 H2. cbn. split_and!; try reflexivity.
  unfold state_to_string.
  apply Z.eqb_neq in H0, H1, H2. by rewrite H0, H1, H2.
Qed.

(** C8. A transition to the current state changes nothing at all (no
    notification, no log entry), so [start] called twice on a processor
    that was not Running notifies the state-change hook exactly once.  On
    an actual transition the log hook runs first, on a machine still in
    the old state; then the state is stored; then the state-change hook
    runs, on a machine in the new state. *)
Theorem transitions_notify_once_log_first cfg lh sh m :
  non_reentrant cfg ->
  enable_logging cfg = true ->
  on_log cfg = Some lh ->
  on_state_change cfg = Some sh ->
  state (proc m) <> STATE_RUNNING ->
  (forall m0, change_state cfg (state (proc m0)) m0 = (tt, m0)) /\
  (let m1 := snd (event_processor_start cfg PTR m) in
   let m2 := snd (event_processor_start cfg PTR m1) in
   m2 = m1 /\
   notified (calls m2)
   = notified (calls m) ++ [(state_to_string (state (proc m)), "RUNNING")]) /\
  (forall s m0, state (proc m0) <> s ->
     let old := state_to_string (state (proc m0)) in
     let new := state_to_string s in
     let buf := vsnprintf256 (state_change_text (state (proc m0)) s) in
     let m_log := snd (record_call (LogCall "INFO" buf) m0) in
     let m_set :=
       snd (modify_proc (set_state s)
              (snd (lh "INFO" buf (user_data cfg) m_log))) in
     let m_cb := snd (record_call (StateChangeCall old new) m_set) in
     snd (change_state cfg s m0) = snd (sh old new (user_data cfg) m_cb) /\
     state (proc m_log) = state (proc m0) /\
     state (proc m_cb) = s /\
     calls (snd (change_state cfg s m0))
     = calls m0 ++ [LogCall "INFO" buf; StateChangeCall old new]).
Proof.
  intros NR Hen Hlog Hsc Hs. split_and!.
  - intros m0. apply change_state_same.
  - cbn zeta. unfold event_processor_start.
    pose proof (change_state_moves cfg STATE_RUNNING m NR Hs) as (Hp & _ & Hc).
    split.
    + set (m1 := snd (change_state cfg STATE_RUNNING m)) in *.
      replace STATE_RUNNING with (state (proc m1)) at 1
        by (by rewrite Hp).
      by rewrite change_state_same.
    + set (m1 := snd (change_state cfg STATE_RUNNING m)) in *.
      replace (change_state cfg STATE_RUNNING m1) with (tt, m1).
      2:{ symmetry. replace STATE_RUNNING with (state (proc m1)) at 1
            by (by rewrite Hp). apply change_state_same. }
      cbn [snd]. rewrite Hc. unfold notified, log_entry, state_change_entry.
      rewrite Hen, Hlog, Hsc. rewrite !omap_app. cbn; by rewrite ?app_nil_r.
  - intros s m0 Hne. cbn zeta.
    pose proof (change_state_moves cfg s m0 NR Hne) as (_ & _ & Hc).
    rewrite Hc. unfold log_entry, state_change_entry, state_change_text.
    rewrite Hen, Hlog, Hsc.
    split_and!; try done.
    unfold change_state, log_message. unfold_st.
    apply Z.eqb_neq in Hne. rewrite Hne, Hen, Hlog, Hsc. by unfold_st.
Qed.

(** C2. Every event the queue holds or a hook was handed satisfies the
    payload invariant (a present payload has a positive length; a zero
    length has no payload), and every call of the interface keeps it so.
    The candidate [push] builds satisfies it for every data pointer and
    [data_len]; with no data pointer the event has no payload and keeps
    the [data_len] it was given. *)
Theorem event_payload_invariant cfg h c m m' ty src buf len :
  non_reentrant cfg ->
  events_inv m ->
  run_api cfg h c m = Some m' ->
  events_inv m' /\
  match fst (new_node ty src buf len m) with
  | Some node => event_ok (event node)
  | None => True
  end /\
  match fst (new_node ty src None len m) with
  | Some node =>
      data (event node) = None /\ data_len (event node) = len /\
      event_ok (event node)
  | None => True
  end /\
  match fst (event_processor_create (Some cfg) m) with
  | PTR => events_inv (snd (event_processor_create (Some cfg) m))
  | NULL => True
  end.
Proof.
  intros NR Hinv Hrun. split_and!.
  - by eapply run_api_events_inv.
  - destruct (fst (new_node ty src buf len m)) as [node|] eqn:Hnode; [|done].
    by eapply new_node_event_ok.
  - destruct (fst (new_node ty src None len m)) as [node|] eqn:Hnode; [|done].
    pose proof (new_node_event_ok _ _ _ _ _ _ Hnode) as Hok.
    pose proof (new_node_spec ty src None len m) as Hnn. cbn zeta in Hnn.
    rewrite Hnode in Hnn.
    destruct Hnn as (_ & _ & _ & _ & _ & _ & _ & Hlen & _ & Hdata & _).
    split_and!; try done. rewrite Hdata. by destruct (data_copy node).
  - pose proof (create_lib cfg m NR) as Hcr. cbn zeta in Hcr.
    destruct (fst (event_processor_create (Some cfg) m)); [done|].
    destruct Hcr as (_ & Hq & _ & _ & l & Hc & Hl).
    destruct Hinv as [_ Hcalls].
    unfold events_inv. rewrite Hq, Hc. split; [constructor|].
    by apply Forall_app.
Qed.

(** C5. With [max_queue_size = K > 0], a push on a processor whose
    [queue_size] is K returns false and leaves [queue_size] at K (and the
    queue as it was).  When the node can be allocated, a push returns
    false exactly when the capacity is set and [queue_size >= capacity].
    The queue invariant, and with it [queue_size <= capacity], holds after
    creation and after every call of the interface. *)
Theorem capacity_bound cfg ty src buf len m :
  non_reentrant cfg ->
  config_ok cfg ->
  0 < max_queue_size cfg ->
  event_processor_queue_size PTR m = max_queue_size cfg ->
  let r := event_processor_push cfg PTR ty src buf len m in
  (fst r = false /\
   event_processor_queue_size PTR (snd r) = max_queue_size cfg /\
   queue (proc (snd r)) = queue (proc m)) /\
  (forall ty0 src0 buf0 len0 m0,
     next_alloc_ok (mem m0) = true ->
     fst (event_processor_push cfg PTR ty0 src0 buf0 len0 m0) = false <->
     0 < max_queue_size cfg /\ max_queue_size cfg <= queue_size (proc m0)) /\
  (forall h c m0 m1,
     queue_inv cfg m0 -> run_api cfg h c m0 = Some m1 ->
     queue_inv cfg m1 /\
     event_processor_queue_size PTR m1 <= max_queue_size cfg) /\
  (forall m0,
     fst (event_processor_create (Some cfg) m0) = PTR ->
     queue_inv cfg (snd (event_processor_create (Some cfg) m0))).
Proof.
  intros NR Hcfg Hpos Hsz. cbn zeta. split_and!.
  - rewrite push_full; [done|]. unfold queue_full.
    cbn in Hsz. rewrite Hsz.
    apply andb_true_iff. split; [by apply Z.ltb_lt | by apply Z.leb_le].
  - rewrite push_full; cbn [snd event_processor_queue_size].
    + by rewrite log_message_proc.
    + unfold queue_full. cbn in Hsz. rewrite Hsz.
      apply andb_true_iff. split; [by apply Z.ltb_lt | by apply Z.leb_le].
  - rewrite push_full; cbn [snd].
    + by rewrite log_message_proc.
    + unfold queue_full. cbn in Hsz. rewrite Hsz.
      apply andb_true_iff. split; [by apply Z.ltb_lt | by apply Z.leb_le].
  - intros ty0 src0 buf0 len0 m0 Hok.
    pose proof (push_cases cfg ty0 src0 buf0 len0 m0 NR) as Hcases.
    cbn zeta in Hcases. unfold queue_full in Hcases.
    destruct Hcases as [(Hr & [Hfull | Hno] & _) | (node & Hr & Hfull & _)].
    + rewrite Hr. apply andb_true_iff in Hfull as [H1 H2].
      apply Z.ltb_lt in H1. apply Z.leb_le in H2. done.
    + congruence.
    + rewrite Hr. split; [done|]. intros [H1 H2].
      apply Z.ltb_lt in H1. apply Z.leb_le in H2.
      by rewrite H1, H2 in Hfull.
  - intros h c m0 m1 Hinv Hrun.
    pose proof (run_api_queue_inv cfg h c m0 m1 NR Hcfg Hinv Hrun) as Hinv1.
    split; [done|]. destruct Hinv1 as [Hs1 Hc1]. specialize (Hc1 Hpos).
    cbn. rewrite Hs1. unfold config_ok in Hcfg.
    rewrite size_wrap_small by lia. done.
  - intros m0 Hptr.
    pose proof (create_lib cfg m0 NR) as Hcr. cbn zeta in Hcr.
    rewrite Hptr in Hcr. destruct Hcr as (_ & Hq & Hs & _).
    unfold queue_inv. rewrite Hq, Hs. cbn. split; [done | lia].
Qed.

(** C3 (amended). On a valid handle [push] returns false exactly when the
    capacity is exceeded or the node allocation fails.  In both cases the
    processor (queue included) is as before, no block stays allocated, and
    the only trace entry is the capacity warning.  A source or payload
    copy that cannot be allocated does not fail the push: it returns true
    and its candidate has that field absent, the other field copied, and
    the type and [data_len] it was given.  The candidate is queued last
    unless the configured filter rejects it; a rejected candidate leaves
    the processor as it was and its blocks are freed. *)
Theorem push_fails_only_on_capacity_or_node cfg ty src buf len m :
  non_reentrant cfg ->
  let r := event_processor_push cfg PTR ty src buf len m in
  (fst r = false <->
   queue_full cfg (proc m) = true \/ next_alloc_ok (mem m) = false) /\
  (fst r = false ->
   proc (snd r) = proc m /\
   live (mem (snd r)) = live (mem m) /\
   calls (snd r)
   = calls m ++
     (if queue_full cfg (proc m)
      then log_entry cfg "WARN"
             ("Queue full (" +:+ pretty (queue_size (proc m)) +:+ " items)")
      else [])) /\
  (fst r = true ->
   exists node,
     fst (new_node ty src buf len m) = Some node /\
     type (event node) = ty /\
     data_len (event node) = len /\
     source (event node)
     = (if source_copy_made src (mem m) then src else None) /\
     data (event node)
     = (if data_copy_made src buf len (mem m)
        then match buf with
             | Some bytes => Some (take (Z.to_nat len) bytes)
             | None => None
             end
        else None) /\
     (on_filter cfg = None ->
      filter_verdict cfg node (snd (new_node ty src buf len m)) = true) /\
     ((filter_verdict cfg node (snd (new_node ty src buf len m)) = true /\
       queue (proc (snd r)) = queue (proc m) ++ [node] /\
       queue_size (proc (snd r)) = size_wrap (queue_size (proc m) + 1) /\
       live (mem (snd r)) = node_blocks node ∪ live (mem m))
      \/
      (filter_verdict cfg node (snd (new_node ty src buf len m)) = false /\
       proc (snd r) = proc m /\
       live (mem (snd r)) = live (mem m) /\
       rejected (calls (snd r)) = rejected (calls m) ++ [event node]))).
Proof.
  intros NR. cbn zeta.
  pose proof (push_cases cfg ty src buf len m NR) as Hcases.
  cbn zeta in Hcases.
  destruct Hcases as [(Hr & Hwhy & Hrest)
    | (node & Hr & Hfull & Hok & Hnode & Hcase)]; rewrite Hr.
  - split_and!; [done | by intros _ | done].
  - split_and!; [split; [done | intros [H|H]; congruence] | done |].
    intros _. exists node.
    pose proof (new_node_copies ty src buf len m node Hnode)
      as (Hty & Hlen & Hsrc & Hdata & _).
    split_and!; try done.
    + intros Hnone. unfold filter_verdict. by rewrite Hnone.
    + destruct Hcase as [(Hv & Hp & Hl & _) | (Hv & Hp & Hl & Hc)].
      * left. rewrite Hp. done.
      * right. split_and!; try done. rewrite Hc.
        unfold rejected, log_entry. rewrite !omap_app.
        destruct (enable_logging cfg), (on_log cfg); cbn;
          by rewrite ?app_nil_r.
Qed.

(** C6. A push whose filter rejects the candidate returns true, leaves the
    processor (queue and [queue_size] included) as it was, releases every
    block of the candidate, and does not invoke the consume hook.  A push
    that queues its candidate returns true as well. *)
Theorem filter_rejection_is_success cfg hook ty src buf len m node :
  non_reentrant cfg ->
  queue_full cfg (proc m) = false ->
  fst (new_node ty src buf len m) = Some node ->
  on_filter cfg = Some hook ->
  fst (hook (event node) (user_data cfg) (snd (new_node ty src buf len m)))
  = false ->
  let r := event_processor_push cfg PTR ty src buf len m in
  fst r = true /\
  event_processor_queue_size PTR (snd r) = event_processor_queue_size PTR m /\
  proc (snd r) = proc m /\
  live (mem (snd r)) = live (mem m) /\
  node_blocks node ## live (mem (snd r)) /\
  delivered (calls (snd r)) = delivered (calls m) /\
  rejected (calls (snd r)) = rejected (calls m) ++ [event node] /\
  (forall ty0 src0 buf0 len0 m0 node0,
     queue_full cfg (proc m0) = false ->
     fst (new_node ty0 src0 buf0 len0 m0) = Some node0 ->
     fst (event_processor_push cfg PTR ty0 src0 buf0 len0 m0) = true).
Proof.
  intros NR Hfull Hnode Hf Hrej. cbn zeta.
  assert (filter_verdict cfg node (snd (new_node ty src buf len m)) = false)
    as Hv by (unfold filter_verdict; by rewrite Hf).
  pose proof (push_filtered cfg ty src buf len m node NR Hfull Hnode Hv)
    as (Hp & Hl & Hc & _).
  pose proof (new_node_spec ty src buf len m) as Hnn. cbn zeta in Hnn.
  rewrite Hnode in Hnn. destruct Hnn as (_ & _ & _ & _ & Hdisj & _).
  rewrite (push_returns_true cfg ty src buf len m node Hfull Hnode).
  cbn [event_processor_queue_size]. rewrite Hp, Hl, Hc.
  unfold delivered, rejected, log_entry. rewrite !omap_app.
  split_and!; try done.
  - destruct (enable_logging cfg), (on_log cfg); cbn; by rewrite app_nil_r.
  - destruct (enable_logging cfg), (on_log cfg); cbn; by rewrite ?app_nil_r.
  - intros. by eapply push_returns_true.
Qed.

(** C4. On a Running processor, after N pushes that all returned true
    with no candidate rejected by the filter, the queue holds what it held
    before followed by the events of those pushes in push order, and
    successive [process] calls hand the consume hook the queued events in
    exactly that order: after [n] calls the hook has received the first
    [n] of them and the queue holds the rest.  The events are exact copies
    of the arguments when no allocation fails. *)
Theorem fifo_delivery cfg hook (pushes : list push_args) m :
  non_reentrant cfg ->
  on_event cfg = Some hook ->
  state (proc m) = STATE_RUNNING ->
  Forall (fun b => b = true) (fst (push_all cfg pushes m)) ->
  rejected (calls (snd (push_all cfg pushes m))) = rejected (calls m) ->
  exists evs,
    Forall2 carried pushes evs /\
    (plan (mem m) = [] -> evs = map exact_copy pushes) /\
    map event (queue (proc (snd (push_all cfg pushes m))))
    = map event (queue (proc m)) ++ evs /\
    forall n,
      let m' := process_times cfg n (snd (push_all cfg pushes m)) in
      delivered (calls m')
      = delivered (calls m) ++ take n (map event (queue (proc m)) ++ evs) /\
      map event (queue (proc m'))
      = drop n (map event (queue (proc m)) ++ evs).
Proof.
  intros NR Hev Hs Hall Hrej.
  pose proof (push_all_appends cfg pushes m NR) as Hpa. cbn zeta in Hpa.
  destruct Hpa as (Hs' & Hd' & rej & Hrej' & Hnodes).
  assert (rej = []) as ->.
  { rewrite Hrej' in Hrej.
    rewrite <- (app_nil_r (rejected (calls m))) in Hrej at 2.
    by apply app_inv_head in Hrej. }
  destruct (Hnodes Hall eq_refl) as (nodes & Hq' & Hcar & Hex).
  exists (map event nodes). rewrite Hq', List.map_app.
  split_and!; try done.
  intros n. cbn zeta.
  assert (state (proc (snd (push_all cfg pushes m))) = STATE_RUNNING) as Hrun
    by (by rewrite Hs').
  pose proof (process_times_running cfg n _ NR Hrun) as (_ & Hq2 & Hd2).
  rewrite Hq2, Hd2, Hd', Hev, Hq'.
  by rewrite <- List.map_app, List.firstn_map, List.skipn_map.
Qed.

End Claims.

(** C1. [process_all] on a processor that is not Running and holds an
    event does not terminate: here a fresh (Idle) processor with one
    queued event.  Whatever the number of iterations granted, the loop is
    still running; every iteration leaves the queue as it was and logs
    one more warning. *)
Theorem process_all_not_running_never_returns :
  state (proc (Demo.idle_one Demo.cfg)) = STATE_IDLE /\
  length (queue (proc (Demo.idle_one Demo.cfg))) = 1%nat /\
  (forall fuel,
     event_processor_process_all Demo.cfg PTR fuel (Demo.idle_one Demo.cfg)
     = None) /\
  (forall n,
     let m' := process_times Demo.cfg n (Demo.idle_one Demo.cfg) in
     queue (proc m') = queue (proc (Demo.idle_one Demo.cfg)) /\
     calls m'
     = calls (Demo.idle_one Demo.cfg) ++
       replicate n (LogCall "WARN" "Processor not running")).
Proof.
  assert (state (proc (Demo.idle_one Demo.cfg)) <> STATE_RUNNING) as Hs
    by (vm_compute; discriminate).
  split_and!.
  - reflexivity.
  - reflexivity.
  - intros fuel. unfold event_processor_process_all.
    rewrite (process_all_loop_stuck Demo.cfg fuel 0 _
               demo_cfg_non_reentrant Hs); [done|].
    vm_compute. discriminate.
  - intros n.
    pose proof (process_times_not_running Demo.cfg n (Demo.idle_one Demo.cfg)
                  demo_cfg_non_reentrant Hs) as (Hp & _ & Hc).
    cbn zeta. rewrite Hp, Hc. split; [done|]. f_equal.
    clear. induction n as [|n IH]; [done|].
    cbn [replicate concat]. rewrite IH. reflexivity.
Qed.

(** * The theorems at concrete processors *)

Lemma process_empty_queue_silent_witness :
  queue (proc (Demo.created Demo.cfg [])) = [] /\
  event_processor_process Demo.cfg PTR (Demo.created Demo.cfg [])
  = (tt, Demo.created Demo.cfg []).
Proof.
  split; [reflexivity|].
  exact (proj1 (process_empty_queue_silent Demo.cfg PTR
                  (Demo.created Demo.cfg []) eq_refl)).
Defined.

Lemma process_state_gating_witness :
  state (proc (Demo.idle_two Demo.cfg)) = STATE_IDLE /\
  queue (proc (snd (event_processor_process Demo.cfg PTR
                      (Demo.idle_two Demo.cfg))))
  = queue (proc (Demo.idle_two Demo.cfg)) /\
  delivered (calls (snd (event_processor_process Demo.cfg PTR
                           (Demo.idle_two Demo.cfg))))
  = delivered (calls (Demo.idle_two Demo.cfg)).
Proof.
  split; [reflexivity|].
  destruct (process_state_gating Demo.cfg PTR (Demo.idle_two Demo.cfg)
              demo_cfg_non_reentrant (or_introl eq_refl))
    as (Hq & _ & _ & _ & _ & _ & Hd & _).
  split; [exact Hq | exact Hd].
Defined.

Lemma queries_total_and_pure_witness :
  event_processor_get_state NULL (Demo.idle_one Demo.cfg) = "INVALID" /\
  event_processor_get_state PTR
    (mk_machine (set_state 7 (proc (Demo.idle_one Demo.cfg)))
       (mem (Demo.idle_one Demo.cfg)) (calls (Demo.idle_one Demo.cfg))
       (host (Demo.idle_one Demo.cfg)))
  = "UNKNOWN".
Proof.
  destruct (queries_total_and_pure (Demo.idle_one Demo.cfg) 7)
    as ((H1 & _) & (_ & _ & _ & H2) & _);
    [intros H; discriminate H ..|].
  split; [exact H1 | exact H2].
Defined.

Lemma transitions_notify_once_log_first_witness :
  state (proc (Demo.idle_one Demo.cfg)) <> STATE_RUNNING /\
  notified (calls (snd (event_processor_start Demo.cfg PTR
             (snd (event_processor_start Demo.cfg PTR
                     (Demo.idle_one Demo.cfg))))))
  = notified (calls (Demo.idle_one Demo.cfg)) ++ [("IDLE", "RUNNING")].
Proof.
  assert (state (proc (Demo.idle_one Demo.cfg)) <> STATE_RUNNING) as Hs
    by (intros H; discriminate H).
  split; [exact Hs|].
  destruct (transitions_notify_once_log_first Demo.cfg
              (fun _ _ _ => Demo.bump tt) (fun _ _ _ => Demo.bump tt)
              (Demo.idle_one Demo.cfg)
              demo_cfg_non_reentrant eq_refl eq_refl eq_refl Hs)
    as (_ & (_ & Hn) & _).
  exact Hn.
Defined.

Lemma event_payload_invariant_witness :
  events_inv (Demo.idle_one Demo.cfg) /\
  events_inv (snd (event_processor_push Demo.cfg PTR EVENT_TYPE_DATA None
                     None 5 (Demo.idle_one Demo.cfg))).
Proof.
  assert (events_inv (Demo.idle_one Demo.cfg)) as Hinv by compute_done.
  split; [exact Hinv|].
  exact (proj1 (event_payload_invariant Demo.cfg PTR
                  (CallPush EVENT_TYPE_DATA None None 5)
                  (Demo.idle_one Demo.cfg) _
                  EVENT_TYPE_DATA None None 5
                  demo_cfg_non_reentrant Hinv eq_refl)).
Defined.

Lemma capacity_bound_witness :
  event_processor_queue_size PTR (Demo.idle_two Demo.cfg)
  = max_queue_size Demo.cfg /\
  fst (Demo.push_data Demo.cfg (Demo.idle_two Demo.cfg)) = false /\
  event_processor_queue_size PTR
    (snd (Demo.push_data Demo.cfg (Demo.idle_two Demo.cfg))) = 2.
Proof.
  split; [reflexivity|].
  assert (config_ok Demo.cfg) as Hcfg by (by vm_compute).
  assert (0 < max_queue_size Demo.cfg) as Hpos by reflexivity.
  destruct (capacity_bound Demo.cfg EVENT_TYPE_DATA (Some "sensor")
              (Some Demo.payload) 2 (Demo.idle_two Demo.cfg)
              demo_cfg_non_reentrant Hcfg Hpos eq_refl)
    as ((Hr & Hsz & _) & _).
  split; [exact Hr | exact Hsz].
Defined.

Lemma push_fails_only_on_capacity_or_node_witness :
  (fst (Demo.push_data Demo.cfg (Demo.idle_two Demo.cfg)) = false <->
   queue_full Demo.cfg (proc (Demo.idle_two Demo.cfg)) = true \/
   next_alloc_ok (mem (Demo.idle_two Demo.cfg)) = false) /\
  data_copy_made (Some "sensor") (Some Demo.payload) 2 (mem Demo.starved)
  = false /\
  fst (Demo.push_data Demo.bare Demo.starved) = true /\
  exists node,
    queue (proc (snd (Demo.push_data Demo.bare Demo.starved)))
    = queue (proc Demo.starved) ++ [node] /\
    source (event node) = Some "sensor" /\
    data (event node) = None /\
    data_len (event node) = 2.
Proof.
  split.
  { exact (proj1 (push_fails_only_on_capacity_or_node Demo.cfg
                    EVENT_TYPE_DATA (Some "sensor") (Some Demo.payload) 2
                    (Demo.idle_two Demo.cfg) demo_cfg_non_reentrant)). }
  split; [reflexivity|]. split; [reflexivity|].
  destruct (proj2 (proj2 (push_fails_only_on_capacity_or_node Demo.bare
                            EVENT_TYPE_DATA (Some "sensor")
                            (Some Demo.payload) 2 Demo.starved
                            demo_bare_non_reentrant)) eq_refl)
    as (node & _ & _ & Hlen & Hsrc & Hdata & Hnofilter & Hcase).
  exists node.
  destruct Hcase as [(_ & Hq & _) | (Hv & _)].
  - split_and!; [exact Hq | exact Hsrc | exact Hdata | exact Hlen].
  - rewrite (Hnofilter eq_refl) in Hv. discriminate Hv.
Defined.

Lemma filter_rejection_is_success_witness :
  fst (new_node EVENT_TYPE_ERROR None (Some Demo.payload) 3
         (Demo.idle_one Demo.cfg))
  = Some Demo.error_candidate /\
  fst (Demo.push_error Demo.cfg (Demo.idle_one Demo.cfg)) = true /\
  proc (snd (Demo.push_error Demo.cfg (Demo.idle_one Demo.cfg)))
  = proc (Demo.idle_one Demo.cfg) /\
  live (mem (snd (Demo.push_error Demo.cfg (Demo.idle_one Demo.cfg))))
  = live (mem (Demo.idle_one Demo.cfg)).
Proof.
  split; [reflexivity|].
  destruct (filter_rejection_is_success Demo.cfg
              (fun ev _ => Demo.bump (negb (Demo.is_error (type ev))))
              EVENT_TYPE_ERROR None (Some Demo.payload) 3
              (Demo.idle_one Demo.cfg) Demo.error_candidate
              demo_cfg_non_reentrant eq_refl eq_refl eq_refl eq_refl)
    as (Hr & _ & Hp & Hl & _).
  split_and!; [exact Hr | exact Hp | exact Hl].
Defined.

Lemma fifo_delivery_witness :
  fst (push_all Demo.cfg Demo.two_pushes (Demo.started Demo.cfg))
  = [true; true] /\
  exists evs,
    evs = map exact_copy Demo.two_pushes /\
    delivered (calls (process_times Demo.cfg 2
                 (snd (push_all Demo.cfg Demo.two_pushes
                         (Demo.started Demo.cfg)))))
    = delivered (calls (Demo.started Demo.cfg)) ++ take 2 evs.
Proof.
  split; [reflexivity|].
  destruct (fifo_delivery Demo.cfg (fun _ _ => Demo.bump tt) Demo.two_pushes
              (Demo.started Demo.cfg)
              demo_cfg_non_reentrant eq_refl eq_refl
              ltac:(repeat constructor) eq_refl)
    as (evs & _ & Hex & _ & Hn).
  exists evs. split; [exact (Hex eq_refl)|].
  exact (proj1 (Hn 2%nat)).
Defined.

(** C3, as first stated, fails: on [Demo.starved] the payload copy of a
    push cannot be allocated, an internal allocation failure in the sense
    of the claim, yet the push returns true and the event is admitted,
    without payload and with the [data_len] it was given. *)
Lemma push_admits_event_when_payload_copy_fails :
  plan (mem Demo.starved) = [true; true; false] /\
  push_alloc_fails (Some "sensor") (Some Demo.payload) 2 (mem Demo.starved)
  = true /\
  queue_full Demo.bare (proc Demo.starved) = false /\
  queue (proc Demo.starved) = [] /\
  fst (Demo.push_data Demo.bare Demo.starved) = true /\
  map event (queue (proc (snd (Demo.push_data Demo.bare Demo.starved))))
  = [mk_event EVENT_TYPE_DATA (Some "sensor") None 2].
Proof. split_and!; reflexivity. Qed.

(** * What the library writes to the trace *)

Section Trace.

Context {W : Type}.
Implicit Types (m : machine W) (cfg : event_config_t W).

Lemma library_text_level level s :
  library_text level s -> level ∈ log_levels.
Proof. unfold log_levels. intros []; set_solver. Qed.

Lemma emitted_log_entry cfg level s :
  library_text level s -> Forall (emitted cfg) (log_entry cfg level s).
Proof.
  intros Hl. unfold log_entry.
  destruct (enable_logging cfg) eqn:Hen; [|constructor].
  destruct (on_log cfg) as [hook|] eqn:Hlog; [|constructor].
  apply Forall_singleton. cbn. rewrite Hen, Hlog.
  split_and!; [done | by eexists | by eapply library_text_level
              | by eexists].
Qed.

Lemma trace_grows_refl cfg m : trace_grows cfg m m.
Proof. exists []. by rewrite app_nil_r. Qed.

Lemma trace_grows_trans cfg m1 m2 m3 :
  trace_grows cfg m1 m2 -> trace_grows cfg m2 m3 -> trace_grows cfg m1 m3.
Proof.
  intros (d1 & H1 & F1) (d2 & H2 & F2). exists (d1 ++ d2).
  rewrite H2, H1, app_assoc. split; [done | by apply Forall_app].
Qed.

Lemma trace_grows_by cfg m m' delta :
  calls m' = calls m ++ delta -> Forall (emitted cfg) delta ->
  trace_grows cfg m m'.
Proof. intros H F. by exists delta. Qed.

Lemma log_message_trace_grows cfg level s m :
  non_reentrant cfg -> library_text level s ->
  trace_grows cfg m (snd (log_message cfg level s m)).
Proof.
  intros NR Hl. eapply trace_grows_by.
  - by apply log_message_calls.
  - by apply emitted_log_entry.
Qed.

Lemma push_trace_grows cfg h ty src buf len m :
  non_reentrant cfg ->
  trace_grows cfg m (snd (event_processor_push cfg h ty src buf len m)).
Proof.
  intros NR. destruct h; [apply trace_grows_refl|].
  pose proof (push_cases cfg ty src buf len m NR) as Hcases. cbn zeta in Hcases.
  destruct Hcases as [(_ & _ & _ & _ & Hc)
    | (node & _ & _ & _ & _ & [(_ & _ & _ & Hc) | (_ & _ & _ & Hc)])];
    (eapply trace_grows_by; [exact Hc|]).
  - destruct (queue_full cfg (proc m)); [|constructor].
    apply emitted_log_entry; constructor.
  - apply Forall_app. split.
    + unfold filter_entry. destruct (on_filter cfg); by repeat constructor.
    + apply emitted_log_entry; constructor.
  - apply Forall_app. split; [by repeat constructor|].
    apply emitted_log_entry; constructor.
Qed.

Lemma process_trace_grows cfg h m :
  non_reentrant cfg ->
  trace_grows cfg m (snd (event_processor_process cfg h m)).
Proof.
  intros NR. destruct h; [apply trace_grows_refl|].
  destruct (decide (state (proc m) = STATE_RUNNING)) as [Hs|Hs].
  - destruct (queue (proc m)) as [|node rest] eqn:Eq.
    + rewrite process_empty by exact Eq. apply trace_grows_refl.
    + pose proof (process_running cfg m node rest NR Eq Hs) as (_ & _ & _ & Hc).
      eapply trace_grows_by; [exact Hc|].
      apply Forall_app. split; [apply emitted_log_entry; constructor|].
      unfold event_entry. destruct (on_event cfg); by repeat constructor.
  - pose proof (process_not_running_lib cfg PTR m NR Hs) as (_ & _ & Hc).
    eapply trace_grows_by; [exact Hc|].
    destruct (queue (proc m)); [constructor|].
    apply emitted_log_entry; constructor.
Qed.

Lemma change_state_trace_grows cfg s m :
  non_reentrant cfg ->
  trace_grows cfg m (snd (change_state cfg s m)).
Proof.
  intros NR. destruct (decide (state (proc m) = s)) as [<-|Hne].
  - rewrite change_state_same. apply trace_grows_refl.
  - pose proof (change_state_moves cfg s m NR Hne) as (_ & _ & Hc).
    eapply trace_grows_by; [exact Hc|].
    apply Forall_app. split; [apply emitted_log_entry; constructor|].
    unfold state_change_entry.
    destruct (on_state_change cfg); by repeat constructor.
Qed.

Lemma clear_queue_trace_grows cfg h m :
  non_reentrant cfg ->
  trace_grows cfg m (snd (event_processor_clear_queue cfg h m)).
Proof.
  intros NR. destruct h; [apply trace_grows_refl|].
  pose proof (clear_queue_spec cfg m NR) as (_ & Hc).
  eapply trace_grows_by; [exact Hc|].
  destruct (0 <? _); [apply emitted_log_entry; constructor | constructor].
Qed.

Lemma process_all_trace_grows cfg h fuel m r :
  non_reentrant cfg ->
  event_processor_process_all cfg h fuel m = Some r ->
  trace_grows cfg m (snd r).
Proof.
  intros NR. unfold event_processor_process_all.
  destruct h; [intros [= <-]; apply trace_grows_refl|].
  destruct (process_all_loop cfg fuel 0 m) as [[count m1]|] eqn:Eloop; [|done].
  assert (trace_grows cfg m m1) as H1.
  { apply (process_all_loop_keeps cfg (trace_grows cfg m)
             (fun m0 H => trace_grows_trans cfg m m0 _ H
                            (process_trace_grows cfg PTR m0 NR))
             fuel 0 m (count, m1) (trace_grows_refl cfg m) Eloop). }
  destruct (0 <? count); intros [= <-]; [|done].
  eapply trace_grows_trans; [exact H1|].
  apply log_message_trace_grows; [done | constructor].
Qed.

Lemma run_api_trace_grows cfg h c m m' :
  non_reentrant cfg -> run_api cfg h c m = Some m' -> trace_grows cfg m m'.
Proof.
  intros NR. destruct c as [ty src buf len| |fuel| | |]; cbn [run_api].
  - intros [= <-]. by apply push_trace_grows.
  - intros [= <-]. by apply process_trace_grows.
  - destruct (event_processor_process_all cfg h fuel m) as [r|] eqn:E; [|done].
    intros [= <-]. by eapply process_all_trace_grows.
  - intros [= <-]. destruct h; [apply trace_grows_refl|].
    by apply change_state_trace_grows.
  - intros [= <-]. destruct h; [apply trace_grows_refl|].
    by apply change_state_trace_grows.
  - intros [= <-]. by apply clear_queue_trace_grows.
Qed.

Lemma run_all_trace_grows cfg h cs m m' :
  non_reentrant cfg -> run_all cfg h cs m = Some m' -> trace_grows cfg m m'.
Proof.
  intros NR. revert m. induction cs as [|c cs IH]; intros m; cbn [run_all].
  - intros [= <-]. apply trace_grows_refl.
  - destruct (run_api cfg h c m) as [m1|] eqn:E; [|done]. intros Hrest.
    eapply trace_grows_trans; [by eapply run_api_trace_grows | by apply IH].
Qed.

End Trace.

(** * Ownership of the heap *)

Section Ownership.

Context {W : Type}.
Implicit Types (m : machine W) (cfg : event_config_t W).

Lemma queue_blocks_snoc (q : list event_node_t) (n : event_node_t) :
  queue_blocks (q ++ [n]) = queue_blocks q ∪ node_blocks n.
Proof.
  induction q as [|n' q IH]; cbn [app queue_blocks]; [set_solver|].
  rewrite IH. set_solver.
Qed.

Lemma nodes_disjoint_snoc (q : list event_node_t) (n : event_node_t) :
  nodes_disjoint q -> queue_blocks q ## node_blocks n ->
  nodes_disjoint (q ++ [n]).
Proof.
  induction q as [|n' q IH]; cbn [app nodes_disjoint queue_blocks].
  - intros _ _. split; [set_solver | done].
  - intros [Hd Hq] Hn. split.
    + rewrite queue_blocks_snoc. set_solver.
    + apply IH; [done | set_solver].
Qed.

Lemma clear_loop_live (q : list event_node_t) (cleared : Z) m :
  live (mem (snd (clear_loop q cleared m))) = live (mem m) ∖ queue_blocks q.
Proof.
  revert cleared m. induction q as [|node rest IH]; intros cleared m.
  - cbn. set_solver.
  - cbn [clear_loop queue_blocks]. unfold_st.
    rewrite IH, !free_live. cbn [mem].
    unfold node_blocks, opt_block. set_solver.
Qed.

Lemma clear_queue_live cfg m :
  non_reentrant cfg ->
  live (mem (snd (event_processor_clear_queue cfg PTR m)))
  = live (mem m) ∖ queue_blocks (queue (proc m)).
Proof.
  intros NR. unfold event_processor_clear_queue. unfold_st.
  destruct (0 <? _).
  - rewrite log_message_mem by exact NR. unfold_st. apply clear_loop_live.
  - unfold_st. apply clear_loop_live.
Qed.

Lemma push_heap_inv cfg h ty src buf len base m :
  non_reentrant cfg -> heap_inv base m ->
  heap_inv base (snd (event_processor_push cfg h ty src buf len m)).
Proof.
  intros NR Hinv. destruct h; [done|].
  destruct Hinv as (Hlive & Hbase & Hname & Hdisj).
  pose proof (push_cases cfg ty src buf len m NR) as Hcases. cbn zeta in Hcases.
  destruct Hcases as [(_ & _ & Hp & Hl & _)
    | (node & _ & _ & _ & Hnode & [(_ & Hp & Hl & _) | (_ & Hp & Hl & _)])];
    unfold heap_inv, owned in *; rewrite Hp, Hl; try done.
  pose proof (new_node_spec ty src buf len m) as Hnn. cbn zeta in Hnn.
  rewrite Hnode in Hnn. destruct Hnn as (_ & _ & _ & _ & Hfresh & _).
  cbn [name_copy queue]. rewrite queue_blocks_snoc.
  rewrite Hlive in Hfresh |- *.
  split_and!; [set_solver | set_solver | set_solver |].
  apply nodes_disjoint_snoc; [done | set_solver].
Qed.

Lemma process_heap_inv cfg h base m :
  non_reentrant cfg -> heap_inv base m ->
  heap_inv base (snd (event_processor_process cfg h m)).
Proof.
  intros NR Hinv. destruct h; [done|].
  destruct (decide (state (proc m) = STATE_RUNNING)) as [Hs|Hs].
  - destruct (queue (proc m)) as [|node rest] eqn:Eq.
    + by rewrite process_empty.
    + destruct Hinv as (Hlive & Hbase & Hname & Hdisj).
      pose proof (process_running cfg m node rest NR Eq Hs) as (Hp & Hl & _).
      unfold heap_inv, owned in *. rewrite Hp, Hl, Hlive.
      rewrite Eq in *. cbn [name_copy queue queue_blocks nodes_disjoint] in *.
      destruct Hdisj as [Hn Hrest].
      split_and!; [set_solver | set_solver | set_solver | done].
  - pose proof (process_not_running_lib cfg PTR m NR Hs) as (Hp & Hm & _).
    unfold heap_inv in *. by rewrite Hp, Hm.
Qed.

Lemma change_state_heap_inv cfg s base m :
  non_reentrant cfg -> heap_inv base m ->
  heap_inv base (snd (change_state cfg s m)).
Proof.
  intros NR Hinv. destruct (decide (state (proc m) = s)) as [<-|Hne].
  - by rewrite change_state_same.
  - pose proof (change_state_moves cfg s m NR Hne) as (Hp & Hm & _).
    unfold heap_inv, owned in *. by rewrite Hp, Hm.
Qed.

Lemma clear_queue_heap_inv cfg h base m :
  non_reentrant cfg -> heap_inv base m ->
  heap_inv base (snd (event_processor_clear_queue cfg h m)).
Proof.
  intros NR Hinv. destruct h; [done|].
  destruct Hinv as (Hlive & Hbase & Hname & Hdisj).
  pose proof (clear_queue_spec cfg m NR) as (Hp & _).
  unfold heap_inv, owned in *.
  rewrite Hp, clear_queue_live, Hlive by exact NR.
  cbn [name_copy queue queue_blocks nodes_disjoint].
  split_and!; [set_solver | set_solver | set_solver | done].
Qed.

Lemma run_api_heap_inv cfg h c base m m' :
  non_reentrant cfg -> heap_inv base m ->
  run_api cfg h c m = Some m' -> heap_inv base m'.
Proof.
  intros NR Hinv.
  destruct c as [ty src buf len| |fuel| | |]; cbn [run_api].
  - intros [= <-]. by apply push_heap_inv.
  - intros [= <-]. by apply process_heap_inv.
  - unfold event_processor_process_all. destruct h; [by intros [= <-]|].
    destruct (process_all_loop cfg fuel 0 m) as [[count m1]|] eqn:Eloop;
      [|done].
    assert (heap_inv base m1) as Hinv1.
    { apply (process_all_loop_keeps cfg (heap_inv base)
               (fun m0 => process_heap_inv cfg PTR base m0 NR)
               fuel 0 m (count, m1) Hinv Eloop). }
    destruct (0 <? count); intros [= <-]; [|done].
    unfold heap_inv in *.
    by rewrite log_message_proc, log_message_mem.
  - intros [= <-]. destruct h; [done|]. by apply change_state_heap_inv.
  - intros [= <-]. destruct h; [done|]. by apply change_state_heap_inv.
  - intros [= <-]. by apply clear_queue_heap_inv.
Qed.

Lemma run_all_heap_inv cfg h cs base m m' :
  non_reentrant cfg -> heap_inv base m ->
  run_all cfg h cs m = Some m' -> heap_inv base m'.
Proof.
  intros NR. revert m. induction cs as [|c cs IH]; intros m Hinv;
    cbn [run_all].
  - by intros [= <-].
  - destruct (run_api cfg h c m) as [m1|] eqn:E; [|done].
    apply IH. by eapply run_api_heap_inv.
Qed.

End Ownership.

(** * Creation and teardown *)

Section CreateDestroy.

Context {W : Type}.
Implicit Types (m : machine W) (cfg : event_config_t W).

Lemma vsnprintf256_length (s : string) :
  (String.length (vsnprintf256 s) <= 255)%nat.
Proof.
  unfold vsnprintf256. generalize 255%nat. intros n. revert s.
  induction n as [|n IH]; intros [|c s]; cbn; try lia.
  specialize (IH s). lia.
Qed.

Lemma vsnprintf256_short (s : string) :
  (String.length s <= 255)%nat -> vsnprintf256 s = s.
Proof.
  unfold vsnprintf256. generalize 255%nat. intros n. revert s.
  induction n as [|n IH]; intros [|c s]; cbn; try done; try lia.
  intros H. f_equal. apply IH. lia.
Qed.

Lemma vsnprintf256_take (s : string) :
  String.list_ascii_of_string (vsnprintf256 s) = take 255 (String.list_ascii_of_string s).
Proof.
  unfold vsnprintf256. generalize 255%nat. intros n. revert s.
  induction n as [|n IH]; intros [|c s]; cbn; try done.
  by rewrite IH.
Qed.

Lemma vsnprintf256_length_min (s : string) :
  String.length (vsnprintf256 s) = Nat.min 255 (String.length s).
Proof.
  unfold vsnprintf256. generalize 255%nat. intros n. revert s.
  induction n as [|n IH]; intros [|c s]; cbn; try done.
  by rewrite IH.
Qed.

Lemma vsnprintf256_prefix (s : string) :
  exists rest, s = vsnprintf256 s +:+ rest.
Proof.
  unfold vsnprintf256. generalize 255%nat. intros n. revert s.
  induction n as [|n IH]; intros [|c s]; cbn; try (by eexists).
  destruct (IH s) as [rest Hrest]. exists rest. rewrite Hrest at 1. reflexivity.
Qed.

Lemma create_spec cfg m :
  non_reentrant cfg ->
  let r := event_processor_create (Some cfg) m in
  if next_alloc_ok (mem m) then
    fst r = PTR /\
    exists self,
      (self ∉ live (mem m)) /\
      proc (snd r) = mk_proc (name_copy (proc (snd r))) STATE_IDLE [] 0 0 /\
      (is_Some (name_copy (proc (snd r))) -> is_Some (name cfg)) /\
      opt_block (name_copy (proc (snd r))) ## {[ self ]} ∪ live (mem m) /\
      live (mem (snd r))
      = {[ self ]} ∪ live (mem m) ∪ opt_block (name_copy (proc (snd r))) /\
      calls (snd r)
      = calls m ++
        log_entry cfg "INFO"
          ("Event processor '" +:+
           match name_copy (proc (snd r)), name cfg with
           | Some _, Some n => n
           | _, _ => "unnamed"
           end +:+ "' created")
  else
    fst r = NULL /\ proc (snd r) = proc m /\ calls (snd r) = calls m /\
    live (mem (snd r)) = live (mem m) /\ host (snd r) = host m.
Proof.
  intros NR. unfold event_processor_create. unfold_st.
  pose proof (malloc_spec m) as H1. cbn zeta in H1.
  destruct (malloc m) as [[self|] m1]; cbn [fst snd] in *.
  - destruct H1 as (Hp1 & Hc1 & _ & _ & -> & Hfresh & Hl1).
    unfold_st.
    rewrite log_message_proc, log_message_mem, log_message_calls by exact NR.
    cbn [proc mem calls name_copy]. split; [done|]. exists self.
    destruct (name cfg) as [n|] eqn:Hname.
    + pose proof (malloc_spec m1) as H2. cbn zeta in H2.
      destruct (malloc m1) as [[b|] m2]; cbn [fst snd] in *.
      * destruct H2 as (_ & Hc2 & _ & _ & _ & Hfresh2 & Hl2).
        rewrite Hl2, Hl1, Hc2, Hc1. cbn [opt_block].
        split_and!; try done; set_solver.
      * destruct H2 as (_ & Hc2 & _ & _ & _ & Hl2).
        rewrite Hl2, Hl1, Hc2, Hc1. cbn [opt_block].
        split_and!; try done; try (by intros [? ?]); set_solver.
    + unfold_st. rewrite Hl1, Hc1. cbn [opt_block].
      split_and!; try done; try (by intros [? ?]); set_solver.
  - destruct H1 as (Hp1 & Hc1 & Hh1 & _ & -> & Hl1). by unfold_st.
Qed.

Lemma create_trace_grows cfg m :
  non_reentrant cfg ->
  trace_grows cfg m (snd (event_processor_create (Some cfg) m)).
Proof.
  intros NR. pose proof (create_spec cfg m NR) as H. cbn zeta in H.
  destruct (next_alloc_ok (mem m)).
  - destruct H as (_ & self & _ & _ & _ & _ & _ & Hc).
    eapply trace_grows_by; [exact Hc|]. apply emitted_log_entry; constructor.
  - destruct H as (_ & _ & Hc & _). exists []. by rewrite app_nil_r.
Qed.

Lemma create_heap_inv cfg m :
  non_reentrant cfg ->
  fst (event_processor_create (Some cfg) m) = PTR ->
  exists self,
    (self ∉ live (mem m)) /\
    heap_inv ({[ self ]} ∪ live (mem m))
      (snd (event_processor_create (Some cfg) m)).
Proof.
  intros NR Hptr. pose proof (create_spec cfg m NR) as H. cbn zeta in H.
  destruct (next_alloc_ok (mem m)); [|destruct H as (H & _); congruence].
  destruct H as (_ & self & Hfresh & Hp & _ & Hdisj & Hl & _).
  exists self. split; [done|].
  unfold heap_inv, owned. rewrite Hl, Hp. cbn [name_copy queue queue_blocks
    nodes_disjoint].
  split_and!; [set_solver | set_solver | set_solver | done].
Qed.

Lemma destroy_spec cfg self m :
  non_reentrant cfg ->
  let r := event_processor_destroy cfg (Some self) m in
  let shown := match name_copy (proc m), name cfg with
               | Some _, Some n => n
               | _, _ => "unnamed"
               end in
  let cleared := size_wrap (Z.of_nat (length (queue (proc m)))) in
  live (mem (snd r))
  = live (mem m) ∖ queue_blocks (queue (proc m))
      ∖ opt_block (name_copy (proc m)) ∖ {[ self ]} /\
  queue (proc (snd r)) = [] /\
  calls (snd r)
  = calls m ++
    log_entry cfg "INFO" ("Destroying event processor '" +:+ shown +:+ "'") ++
    (if 0 <? cleared
     then log_entry cfg "INFO"
            ("Cleared " +:+ pretty cleared +:+ " events from queue")
     else []).
Proof.
  intros NR. unfold event_processor_destroy. unfold_st.
  rewrite !free_live, !free_proc, !free_calls.
  set (m1 := snd (log_message cfg "INFO" _ m)).
  assert (proc m1 = proc m) as Hp1 by (by apply log_message_proc).
  assert (mem m1 = mem m) as Hm1 by (by apply log_message_mem).
  assert (calls m1 = calls m ++ _) as Hc1 by (by apply log_message_calls).
  pose proof (clear_queue_spec cfg m1 NR) as (Hp2 & Hc2).
  rewrite clear_queue_live by exact NR.
  rewrite Hp2, Hc2, Hp1, Hm1, Hc1. cbn [name_copy queue opt_block].
  rewrite <- app_assoc. split_and!; done.
Qed.

Lemma destroy_live cfg self base m :
  non_reentrant cfg ->
  self ∉ base ->
  heap_inv ({[ self ]} ∪ base) m ->
  live (mem (snd (event_processor_destroy cfg (Some self) m))) = base.
Proof.
  intros NR Hself (Hlive & Hbase & Hname & _).
  pose proof (destroy_spec cfg self m NR) as (Hl & _).
  rewrite Hl, Hlive. unfold owned in *. set_solver.
Qed.

End CreateDestroy.

(** * Draining a Running processor *)

Section Draining.

Context {W : Type}.
Implicit Types (m : machine W) (cfg : event_config_t W).

Lemma process_times_running_counters cfg n m :
  non_reentrant cfg ->
  state (proc m) = STATE_RUNNING ->
  0 <= events_processed (proc m) < SIZE_MOD ->
  (n <= length (queue (proc m)))%nat ->
  let m' := process_times cfg n m in
  events_processed (proc m')
  = size_wrap (events_processed (proc m) + Z.of_nat n) /\
  name_copy (proc m') = name_copy (proc m) /\
  live (mem m') = live (mem m) ∖ queue_blocks (take n (queue (proc m))).
Proof.
  intros NR. revert m. induction n as [|n IH]; intros m Hs Hep Hn.
  - cbn. rewrite Z.add_0_r, size_wrap_small by done.
    split_and!; [done | done | set_solver].
  - destruct (queue (proc m)) as [|node rest] eqn:Eq; [cbn in Hn; lia|].
    cbn [process_times take queue_blocks].
    pose proof (process_running cfg m node rest NR Eq Hs) as (Hp & Hl & _).
    specialize (IH (snd (event_processor_process cfg PTR m))).
    rewrite Hp, Hl in IH. cbn [state queue events_processed name_copy] in IH.
    destruct IH as (IH1 & IH2 & IH3);
      [done | apply Z.mod_pos_bound; reflexivity | cbn in Hn; lia |].
    cbn zeta. rewrite IH1, IH2, IH3. split_and!; [|done|set_solver].
    unfold size_wrap. rewrite Zplus_mod_idemp_l. f_equal. lia.
Qed.

Lemma process_all_loop_running_count cfg fuel count m :
  non_reentrant cfg ->
  state (proc m) = STATE_RUNNING ->
  (length (queue (proc m)) <= fuel)%nat ->
  process_all_loop cfg fuel count m
  = Some (match queue (proc m) with
          | [] => count
          | _ :: _ => size_wrap (count + Z.of_nat (length (queue (proc m))))
          end,
          process_times cfg (length (queue (proc m))) m).
Proof.
  intros NR. revert count m.
  induction fuel as [|fuel IH]; intros count m Hs Hlen;
    cbn [process_all_loop];
    destruct (queue (proc m)) as [|node rest] eqn:Eq;
    cbn [length] in *; try lia; try done.
  pose proof (process_running cfg m node rest NR Eq Hs) as (Hp & _).
  rewrite IH; rewrite Hp; cbn [state queue]; [|done|lia].
  cbn [process_times]. f_equal. f_equal.
  destruct rest as [|n' rest']; [cbn [length]; reflexivity|].
  unfold size_wrap. rewrite Zplus_mod_idemp_l. f_equal. cbn [length]. lia.
Qed.

(** ** The stored state stays one of the three enumerators *)

Lemma run_api_state_valid cfg h c m m' :
  non_reentrant cfg -> state_valid m ->
  run_api cfg h c m = Some m' -> state_valid m'.
Proof.
  intros NR Hv.
  assert (forall m0, state_valid m0 ->
            state_valid (snd (event_processor_process cfg PTR m0))) as Hproc.
  { intros m0 Hv0. unfold state_valid in *.
    destruct (decide (state (proc m0) = STATE_RUNNING)) as [Hs|Hs].
    - destruct (queue (proc m0)) as [|node rest] eqn:Eq.
      + by rewrite process_empty.
      + pose proof (process_running cfg m0 node rest NR Eq Hs) as (Hp & _).
        by rewrite Hp.
    - pose proof (process_not_running_lib cfg PTR m0 NR Hs) as (Hp & _).
      by rewrite Hp. }
  assert (forall s m0, s = STATE_RUNNING \/ s = STATE_STOPPED ->
            state_valid (snd (change_state cfg s m0))) as Hch.
  { intros s m0 Hs. unfold state_valid.
    destruct (decide (state (proc m0) = s)) as [He|Hne].
    - rewrite <- He at 1 2 3. rewrite change_state_same. cbn [snd].
      rewrite He. tauto.
    - pose proof (change_state_moves cfg s m0 NR Hne) as (Hp & _).
      rewrite Hp. cbn. tauto. }
  destruct c as [ty src buf len| |fuel| | |]; cbn [run_api].
  - intros [= <-]. destruct h; [done|]. unfold state_valid in *.
    pose proof (push_cases cfg ty src buf len m NR) as Hcases.
    cbn zeta in Hcases.
    destruct Hcases as [(_ & _ & Hp & _)
      | (node & _ & _ & _ & _ & [(_ & Hp & _) | (_ & Hp & _)])];
      by rewrite Hp.
  - intros [= <-]. destruct h; [done|]. by apply Hproc.
  - unfold event_processor_process_all. destruct h; [by intros [= <-]|].
    destruct (process_all_loop cfg fuel 0 m) as [[count m1]|] eqn:Eloop;
      [|done].
    assert (state_valid m1) as Hv1.
    { apply (process_all_loop_keeps cfg state_valid Hproc
               fuel 0 m (count, m1) Hv Eloop). }
    destruct (0 <? count); intros [= <-]; [|done].
    unfold state_valid in *. by rewrite log_message_proc.
  - intros [= <-]. destruct h; [done|]. apply Hch. by left.
  - intros [= <-]. destruct h; [done|]. apply Hch. by right.
  - intros [= <-]. destruct h; [done|]. unfold state_valid in *.
    pose proof (clear_queue_spec cfg m NR) as (Hp & _). by rewrite Hp.
Qed.

Lemma run_all_state_valid cfg h cs m m' :
  non_reentrant cfg -> state_valid m ->
  run_all cfg h cs m = Some m' -> state_valid m'.
Proof.
  intros NR. revert m. induction cs as [|c cs IH]; intros m Hv;
    cbn [run_all].
  - by intros [= <-].
  - destruct (run_api cfg h c m) as [m1|] eqn:E; [|done].
    apply IH. by eapply run_api_state_valid.
Qed.

End Draining.

(** * Further properties of the interface *)

Section More.

Context {W : Type}.
Implicit Types (m : machine W) (cfg : event_config_t W).

Lemma destroy_trace_grows cfg self m :
  non_reentrant cfg ->
  trace_grows cfg m (snd (event_processor_destroy cfg self m)).
Proof.
  intros NR. destruct self as [b|]; [|apply trace_grows_refl].
  pose proof (destroy_spec cfg b m NR) as (_ & _ & Hc).
  eapply trace_grows_by; [exact Hc|].
  apply Forall_app. split; [apply emitted_log_entry; constructor|].
  destruct (0 <? _); [apply emitted_log_entry; constructor | constructor].
Qed.

Lemma trace_grows_well_logged cfg m m' :
  trace_grows cfg m m' -> well_logged m m'.
Proof.
  intros (delta & Hc & Hall). exists delta. split; [done|].
  intros level message Hin.
  rewrite Forall_forall in Hall. specialize (Hall _ Hin). cbn in Hall.
  destruct Hall as (_ & _ & Hl & formatted & Htext & ->).
  split; [done|]. exists formatted.
  split_and!; [done | done | apply vsnprintf256_take
              | apply vsnprintf256_length_min].
Qed.

Lemma trace_grows_silent cfg m m' :
  enable_logging cfg = false \/ on_log cfg = None ->
  trace_grows cfg m m' -> log_entries (calls m') = log_entries (calls m).
Proof.
  intros Hoff (delta & Hc & Hall). rewrite Hc. unfold log_entries.
  rewrite omap_app.
  assert (omap (fun c => match c with
                         | LogCall l s => Some (l, s)
                         | _ => None
                         end) delta = []) as ->; [|by rewrite app_nil_r].
  clear Hc. induction Hall as [|c delta Hc' _ IH]; [done|].
  destruct c as [l s| | |]; simpl; try exact IH.
  cbn in Hc'. destruct Hc' as (Hen & [hook Hhook] & _).
  destruct Hoff; congruence.
Qed.

Lemma delivered_app (l1 l2 : list call) :
  delivered (l1 ++ l2) = delivered l1 ++ delivered l2.
Proof. unfold delivered. apply omap_app. Qed.

Lemma change_state_frame cfg s m :
  non_reentrant cfg ->
  let m' := snd (change_state cfg s m) in
  proc m' = set_state s (proc m) /\
  mem m' = mem m /\
  delivered (calls m') = delivered (calls m).
Proof.
  intros NR. cbn zeta. destruct (decide (state (proc m) = s)) as [<-|Hne].
  - rewrite change_state_same. cbn [snd]. split_and!; try done.
    by destruct (proc m).
  - pose proof (change_state_moves cfg s m NR Hne) as (Hp & Hm & Hc).
    rewrite Hp, Hm, Hc. split_and!; try done.
    unfold delivered, log_entry, state_change_entry. rewrite !omap_app.
    destruct (enable_logging cfg), (on_log cfg), (on_state_change cfg);
      cbn; by rewrite ?app_nil_r.
Qed.

End More.

Section Extras.

Context {W : Type}.
Implicit Types (m : machine W) (cfg : event_config_t W).

(** X1. [clear_queue] works in any state: it empties the queue, zeroes
    [queue_size], frees exactly the blocks of the queued nodes, leaves the
    state and [events_processed] alone, hands no event to the consume
    hook, and logs the number removed when that number (as a [size_t]) is
    not zero. *)
Theorem clear_queue_drains cfg m :
  non_reentrant cfg ->
  let m' := snd (event_processor_clear_queue cfg PTR m) in
  let cleared := size_wrap (Z.of_nat (length (queue (proc m)))) in
  queue (proc m') = [] /\
  event_processor_queue_size PTR m' = 0 /\
  state (proc m') = state (proc m) /\
  events_processed (proc m') = events_processed (proc m) /\
  live (mem m') = live (mem m) ∖ queue_blocks (queue (proc m)) /\
  delivered (calls m') = delivered (calls m) /\
  calls m'
  = calls m ++
    (if 0 <? cleared
     then log_entry cfg "INFO"
            ("Cleared " +:+ pretty cleared +:+ " events from queue")
     else []).
Proof.
  intros NR. cbn zeta.
  pose proof (clear_queue_spec cfg m NR) as (Hp & Hc).
  cbn [event_processor_queue_size].
  rewrite Hp, Hc, clear_queue_live by exact NR.
  cbn [queue queue_size state events_processed].
  split_and!; try done.
  unfold delivered. rewrite omap_app.
  destruct (0 <? _); [|by rewrite app_nil_r].
  fold (delivered (log_entry cfg "INFO"
    ("Cleared " +:+
     pretty (size_wrap (Z.of_nat (length (queue (proc m))))) +:+
     " events from queue"))).
  by rewrite delivered_log_entry, app_nil_r.
Qed.

Lemma process_times_queue_inv cfg n m :
  non_reentrant cfg -> queue_inv cfg m ->
  queue_inv cfg (process_times cfg n m).
Proof.
  intros NR. revert m. induction n as [|n IH]; intros m Hinv; [done|].
  cbn [process_times]. apply IH. by apply process_queue_inv.
Qed.

(** X2. On a Running processor [process_all] returns once it is granted
    one iteration per queued event.  It leaves the queue empty with
    [queue_size] 0, has handed every queued event to the consume hook in
    queue order, has counted them in [events_processed], has freed the
    blocks of every node, and ends with the summary log entry when the
    count is not zero. *)
Theorem process_all_running_drains cfg fuel m :
  non_reentrant cfg ->
  state (proc m) = STATE_RUNNING ->
  queue_inv cfg m ->
  0 <= events_processed (proc m) < SIZE_MOD ->
  (length (queue (proc m)) <= fuel)%nat ->
  let n := length (queue (proc m)) in
  exists r,
    event_processor_process_all cfg PTR fuel m = Some r /\
    queue (proc (snd r)) = [] /\
    event_processor_queue_size PTR (snd r) = 0 /\
    state (proc (snd r)) = STATE_RUNNING /\
    events_processed (proc (snd r))
    = size_wrap (events_processed (proc m) + Z.of_nat n) /\
    live (mem (snd r)) = live (mem m) ∖ queue_blocks (queue (proc m)) /\
    delivered (calls (snd r))
    = delivered (calls m) ++
      match on_event cfg with
      | Some _ => map event (queue (proc m))
      | None => []
      end /\
    calls (snd r)
    = calls (process_times cfg n m) ++
      (if 0 <? size_wrap (Z.of_nat n)
       then log_entry cfg "INFO"
              ("Processed " +:+ pretty (size_wrap (Z.of_nat n)) +:+ " events")
       else []).
Proof.
  intros NR Hs Hinv Hep Hfuel. cbn zeta.
  unfold event_processor_process_all.
  rewrite (process_all_loop_running_count cfg fuel 0 m NR Hs Hfuel).
  set (n := length (queue (proc m))) in *.
  pose proof (process_times_running cfg n m NR Hs) as (Hs' & Hq' & Hd').
  pose proof (process_times_running_counters cfg n m NR Hs Hep (le_n _))
    as (Hep' & _ & Hl').
  pose proof (process_times_queue_inv cfg n m NR Hinv) as [Hsz' _].
  subst n. rewrite drop_all in Hq'. rewrite firstn_all in Hd', Hl'.
  rewrite Hq' in Hsz'. cbn in Hsz'.
  assert (match queue (proc m) with
          | [] => 0
          | _ :: _ => size_wrap (0 + Z.of_nat (length (queue (proc m))))
          end = size_wrap (Z.of_nat (length (queue (proc m))))) as ->.
  { destruct (queue (proc m)); [reflexivity | f_equal]. }
  destruct (0 <? size_wrap (Z.of_nat (length (queue (proc m))))).
  - eexists. split; [reflexivity|].
    cbn [event_processor_queue_size].
    rewrite log_message_proc, log_message_mem, log_message_calls by exact NR.
    rewrite Hq', Hs', Hep', Hl', Hsz'. split_and!; try done.
    unfold delivered at 1. rewrite omap_app.
    match goal with |- context [log_entry cfg ?l ?t] =>
      fold (delivered (log_entry cfg l t)) end.
    fold (delivered (calls (process_times cfg (length (queue (proc m))) m))).
    by rewrite delivered_log_entry, app_nil_r, Hd'.
  - eexists. split; [reflexivity|].
    cbn [snd event_processor_queue_size].
    rewrite Hq', Hs', Hep', Hl', Hsz', Hd', app_nil_r. split_and!; done.
Qed.

(** X3. [process_all] returns exactly when the queue is empty or the
    processor is Running: in every other case the loop goes on whatever
    the number of iterations granted. *)
Theorem process_all_terminates_iff cfg m :
  non_reentrant cfg ->
  (exists fuel r, event_processor_process_all cfg PTR fuel m = Some r) <->
  queue (proc m) = [] \/ state (proc m) = STATE_RUNNING.
Proof.
  intros NR. split.
  - intros (fuel & r & Hr).
    destruct (queue (proc m)) as [|node rest] eqn:Eq; [by left|]. right.
    destruct (decide (state (proc m) = STATE_RUNNING)) as [Hs|Hs]; [done|].
    unfold event_processor_process_all in Hr.
    rewrite (process_all_loop_stuck cfg fuel 0 m NR Hs) in Hr; [done|].
    by rewrite Eq.
  - intros [Hq | Hs].
    + exists 0%nat. unfold event_processor_process_all. cbn [process_all_loop].
      rewrite Hq. cbn. by eexists.
    + exists (length (queue (proc m))). unfold event_processor_process_all.
      rewrite (process_all_loop_running_count cfg _ 0 m NR Hs (le_n _)).
      destruct (0 <? _); by eexists.
Qed.


(** X5. The state of a created processor is always one of the three
    enumerators: after any sequence of interface calls [get_state] answers
    "IDLE", "RUNNING" or "STOPPED", never "UNKNOWN". *)
Theorem state_name_always_valid cfg m0 cs mN :
  non_reentrant cfg ->
  fst (event_processor_create (Some cfg) m0) = PTR ->
  run_all cfg PTR cs (snd (event_processor_create (Some cfg) m0)) = Some mN ->
  state_valid mN /\
  event_processor_get_state PTR mN ∈ ["IDLE"; "RUNNING"; "STOPPED"].
Proof.
  intros NR Hptr Hrun.
  assert (state_valid (snd (event_processor_create (Some cfg) m0))) as Hv0.
  { pose proof (create_spec cfg m0 NR) as H. cbn zeta in H.
    destruct (next_alloc_ok (mem m0)); [|destruct H; congruence].
    destruct H as (_ & self & _ & Hp & _). unfold state_valid.
    rewrite Hp. by left. }
  pose proof (run_all_state_valid cfg PTR cs _ mN NR Hv0 Hrun) as Hv.
  split; [done|]. cbn [event_processor_get_state].
  destruct Hv as [-> | [-> | ->]]; cbn; set_solver.
Qed.

(** X6. Stopping and restarting loses nothing.  [stop] then [start] leaves
    a Running processor with the queue, the counters and the heap as they
    were; while stopped no [process] call delivers anything; once
    restarted, [process] calls deliver the queued events from the head, in
    order. *)
Theorem pause_resume_keeps_queue cfg hook m :
  non_reentrant cfg ->
  on_event cfg = Some hook ->
  let stopped := snd (event_processor_stop cfg PTR m) in
  let resumed := snd (event_processor_start cfg PTR stopped) in
  state (proc stopped) = STATE_STOPPED /\
  state (proc resumed) = STATE_RUNNING /\
  queue (proc resumed) = queue (proc m) /\
  queue_size (proc resumed) = queue_size (proc m) /\
  events_processed (proc resumed) = events_processed (proc m) /\
  mem resumed = mem m /\
  (forall n,
     delivered (calls (process_times cfg n stopped)) = delivered (calls m) /\
     queue (proc (process_times cfg n stopped)) = queue (proc m)) /\
  (forall n,
     delivered (calls (process_times cfg n resumed))
     = delivered (calls m) ++ map event (take n (queue (proc m))) /\
     queue (proc (process_times cfg n resumed)) = drop n (queue (proc m))).
Proof.
  intros NR Hev. cbn zeta. unfold event_processor_stop, event_processor_start.
  pose proof (change_state_frame cfg STATE_STOPPED m NR) as (Hp1 & Hm1 & Hd1).
  set (stopped := snd (change_state cfg STATE_STOPPED m)) in *.
  pose proof (change_state_frame cfg STATE_RUNNING stopped NR)
    as (Hp2 & Hm2 & Hd2).
  set (resumed := snd (change_state cfg STATE_RUNNING stopped)) in *.
  rewrite Hp2, Hm2, Hp1, Hm1. cbn [state queue queue_size events_processed
    set_state].
  split_and!; try done.
  - intros n.
    assert (state (proc stopped) <> STATE_RUNNING) as Hns
      by (rewrite Hp1; cbn; discriminate).
    pose proof (process_times_not_running cfg n stopped NR Hns)
      as (Hp & _ & Hc).
    rewrite Hp, Hc, Hp1. cbn [queue set_state]. split; [|done].
    unfold delivered at 1. rewrite omap_app.
    fold (delivered (calls stopped)). rewrite Hd1.
    assert (forall k l, delivered l = [] ->
              omap (fun c => match c with
                             | EventCall ev => Some ev
                             | _ => None
                             end) (concat (replicate k l)) = []) as Hrep.
    { intros k l Hl. induction k as [|k IH]; [done|].
      cbn [replicate concat]. rewrite omap_app.
      fold (delivered l). by rewrite Hl, IH. }
    rewrite Hrep; [by rewrite app_nil_r|].
    destruct (queue (proc m)); [done | apply delivered_log_entry].
  - intros n.
    assert (state (proc resumed) = STATE_RUNNING) as Hr
      by (by rewrite Hp2).
    pose proof (process_times_running cfg n resumed NR Hr) as (_ & Hq & Hd).
    rewrite Hq, Hd, Hev, Hp2, Hp1, Hd2, Hd1. done.
Qed.

End Extras.

Section Extras2.

Context {W : Type}.
Implicit Types (m : machine W) (cfg : event_config_t W).

(** X7. The log hook sees exactly what [log_message] is given: the level,
    and the formatted text cut to its first 255 characters (the text
    itself when it has at most 255 characters), once, when logging is
    enabled and a log hook is set, and nothing otherwise.  Whatever the
    interface is asked (creation, any sequence of calls, teardown), every
    log entry has one of the three levels and is such a cut of one of the
    library's texts; a successful creation logs the cut of its
    announcement, which carries the configured name. *)
Theorem log_entries_bounded cfg h self cs m0 m1 :
  non_reentrant cfg ->
  run_all cfg h cs m0 = Some m1 ->
  well_logged m0 m1 /\
  (forall m,
     let r := event_processor_create (Some cfg) m in
     well_logged m (snd r) /\
     (fst r = PTR ->
      calls (snd r)
      = calls m ++
        log_entry cfg "INFO"
          ("Event processor '" +:+
           match name_copy (proc (snd r)), name cfg with
           | Some _, Some n => n
           | _, _ => "unnamed"
           end +:+ "' created"))) /\
  well_logged m1 (snd (event_processor_destroy cfg self m1)) /\
  (forall level text m,
     calls (snd (log_message cfg level text m))
     = calls m ++
       (if enable_logging cfg && bool_decide (is_Some (on_log cfg))
        then [LogCall level (vsnprintf256 text)]
        else [])) /\
  (forall s,
     String.list_ascii_of_string (vsnprintf256 s)
     = take 255 (String.list_ascii_of_string s) /\
     String.length (vsnprintf256 s) = Nat.min 255 (String.length s) /\
     ((String.length s <= 255)%nat -> vsnprintf256 s = s) /\
     exists rest, s = vsnprintf256 s +:+ rest).
Proof.
  intros NR Hrun. split_and!.
  - eapply trace_grows_well_logged. by eapply run_all_trace_grows.
  - intros m. cbn zeta. split.
    + eapply trace_grows_well_logged. by apply create_trace_grows.
    + intros Hptr. pose proof (create_spec cfg m NR) as H. cbn zeta in H.
      destruct (next_alloc_ok (mem m)).
      * by destruct H as (_ & self' & _ & _ & _ & _ & _ & Hc).
      * destruct H as (Hnull & _). congruence.
  - eapply trace_grows_well_logged. by apply destroy_trace_grows.
  - intros level text m. rewrite log_message_calls by exact NR.
    unfold log_entry.
    by destruct (enable_logging cfg), (on_log cfg) as [hook|].
  - intros s. split_and!.
    + apply vsnprintf256_take.
    + apply vsnprintf256_length_min.
    + apply vsnprintf256_short.
    + apply vsnprintf256_prefix.
Qed.

(** X8. With logging disabled, or with no log hook, nothing is logged:
    creation, any sequence of calls and teardown leave the log entries of
    the trace as they were. *)
Theorem logging_disabled_is_silent cfg h self cs m0 m1 :
  non_reentrant cfg ->
  enable_logging cfg = false \/ on_log cfg = None ->
  run_all cfg h cs m0 = Some m1 ->
  log_entries (calls m1) = log_entries (calls m0) /\
  log_entries (calls (snd (event_processor_create (Some cfg) m0)))
  = log_entries (calls m0) /\
  log_entries (calls (snd (event_processor_destroy cfg self m1)))
  = log_entries (calls m1).
Proof.
  intros NR Hoff Hrun. split_and!.
  - eapply trace_grows_silent; [done|]. by eapply run_all_trace_grows.
  - eapply trace_grows_silent; [done|]. by apply create_trace_grows.
  - eapply trace_grows_silent; [done|]. by apply destroy_trace_grows.
Qed.

(** X9. Nothing leaks over the life of a processor.  After a successful
    creation and any sequence of interface calls, the live blocks are the
    ones that were live before, the processor's own block, the name copy
    and the blocks of the queued nodes, none owned twice; and [destroy]
    then leaves exactly the blocks that were live before the creation,
    without handing the remaining events to the consume hook. *)
Theorem create_use_destroy_no_leak cfg m0 cs mN :
  non_reentrant cfg ->
  fst (event_processor_create (Some cfg) m0) = PTR ->
  run_all cfg PTR cs (snd (event_processor_create (Some cfg) m0)) = Some mN ->
  exists self,
    (self ∉ live (mem m0)) /\
    heap_inv ({[ self ]} ∪ live (mem m0)) mN /\
    live (mem (snd (event_processor_destroy cfg (Some self) mN)))
    = live (mem m0) /\
    delivered (calls (snd (event_processor_destroy cfg (Some self) mN)))
    = delivered (calls mN) /\
    event_processor_destroy cfg None mN = (tt, mN).
Proof.
  intros NR Hptr Hrun.
  destruct (create_heap_inv cfg m0 NR Hptr) as (self & Hfresh & Hinv0).
  exists self.
  pose proof (run_all_heap_inv cfg PTR cs _ _ mN NR Hinv0 Hrun) as HinvN.
  split_and!; try done.
  - by apply destroy_live.
  - pose proof (destroy_spec cfg self mN NR) as (_ & _ & Hc). rewrite Hc.
    destruct (0 <? _);
      rewrite !delivered_app, ?delivered_log_entry; by rewrite ?app_nil_r.
Qed.

(** X10. On a Running processor with a non-empty queue one [process] call
    consumes exactly the head: the queue is the tail, [queue_size] is one
    less and [events_processed] one more (as [size_t]), the state is
    unchanged, the head's event is what the consume hook was handed, and
    exactly the head's blocks are freed, so that the blocks of the events
    still queued stay allocated.  The event is counted whether or not a
    consume hook is configured. *)
Theorem process_consumes_head cfg base m node rest :
  non_reentrant cfg ->
  state (proc m) = STATE_RUNNING ->
  queue (proc m) = node :: rest ->
  heap_inv base m ->
  let m' := snd (event_processor_process cfg PTR m) in
  queue (proc m') = rest /\
  queue_size (proc m') = size_wrap (queue_size (proc m) - 1) /\
  events_processed (proc m') = size_wrap (events_processed (proc m) + 1) /\
  state (proc m') = STATE_RUNNING /\
  delivered (calls m')
  = delivered (calls m) ++
    match on_event cfg with
    | Some _ => [event node]
    | None => []
    end /\
  live (mem m') = live (mem m) ∖ node_blocks node /\
  node_blocks node ## live (mem m') /\
  queue_blocks rest ⊆ live (mem m') /\
  heap_inv base m'.
Proof.
  intros NR Hs Hq Hinv. cbn zeta.
  pose proof (process_heap_inv cfg PTR base m NR Hinv) as Hinv'.
  pose proof (process_running cfg m node rest NR Hq Hs) as (Hp & Hl & _ & Hc).
  destruct Hinv' as (Hlive' & Hrest'). rewrite Hp in Hlive'.
  unfold owned in Hlive'. cbn [name_copy queue] in Hlive'.
  split_and!.
  - by rewrite Hp.
  - by rewrite Hp.
  - by rewrite Hp.
  - by rewrite Hp.
  - rewrite Hc. unfold delivered, event_entry. rewrite !omap_app.
    match goal with |- context [log_entry cfg ?l ?t] =>
      fold (delivered (log_entry cfg l t)) end.
    rewrite delivered_log_entry. by destruct (on_event cfg).
  - done.
  - rewrite Hl. set_solver.
  - rewrite Hlive'. set_solver.
  - split; [|done]. rewrite Hlive', Hp. done.
Qed.

End Extras2.

Section Extras3.

Context {W : Type}.
Implicit Types (m : machine W) (cfg : event_config_t W).

Lemma log_message_lib_log_passive cfg level s m :
  (forall lh, on_log cfg = Some lh ->
     forall l t ud, passive (lh l t ud)) ->
  lib (snd (log_message cfg level s m))
  = (proc m, mem m, calls m ++ log_entry cfg level s).
Proof.
  intros Hlog. unfold log_message, log_entry.
  destruct (enable_logging cfg); [destruct (on_log cfg) as [hook|] eqn:E|];
    cbn; rewrite ?app_nil_r; try reflexivity.
  unfold bind. rewrite (Hlog hook eq_refl). reflexivity.
Qed.

(** X11. The consume hook runs in the middle of [process], whatever it
    does itself (it may call back into the processor).  The machine it is
    handed has the event already unlinked ([queue] is the tail and
    [queue_size] one less), [events_processed] not yet increased, and the
    event's blocks still allocated.  Counting the event and freeing its
    blocks happen after the hook returns, on the machine the hook left. *)
Theorem consume_hook_runs_between cfg hook m node rest :
  (forall lh, on_log cfg = Some lh ->
     forall l t ud, passive (lh l t ud)) ->
  on_event cfg = Some hook ->
  state (proc m) = STATE_RUNNING ->
  queue (proc m) = node :: rest ->
  exists m_in,
    proc m_in
    = mk_proc (name_copy (proc m)) STATE_RUNNING rest
        (size_wrap (queue_size (proc m) - 1)) (events_processed (proc m)) /\
    mem m_in = mem m /\
    delivered (calls m_in) = delivered (calls m) ++ [event node] /\
    let m_out := snd (hook (event node) (user_data cfg) m_in) in
    let m' := snd (event_processor_process cfg PTR m) in
    proc m'
    = set_events_processed (size_wrap (events_processed (proc m_out) + 1))
        (proc m_out) /\
    live (mem m') = live (mem m_out) ∖ node_blocks node /\
    plan (mem m') = plan (mem m_out) /\
    calls m' = calls m_out /\
    host m' = host m_out.
Proof.
  intros Hlog Hev Hs Hq.
  unfold event_processor_process. unfold_st. rewrite Hq, Hs, Hev.
  cbn [Z.eqb Pos.eqb negb STATE_RUNNING]. unfold_st.
  match goal with |- context [hook (event node) (user_data cfg) ?mi] =>
    exists mi end.
  cbn [proc mem calls].
  match goal with |- context [log_message cfg ?l ?t ?m1] =>
    pose proof (log_message_lib_log_passive cfg l t m1 Hlog) as Hlib;
    set (m2 := snd (log_message cfg l t m1)) in *
  end.
  unfold lib in Hlib. cbn [proc mem calls] in Hlib.
  injection Hlib as Hp2 Hm2 Hc2.
  cbn zeta. rewrite !free_proc, !free_calls, !free_live, !free_plan.
  cbn [proc mem calls host].
  split_and!; try done.
  - rewrite Hp2. unfold set_queue_size, set_queue.
    cbn [name_copy state queue queue_size events_processed]. by rewrite Hs.
  - rewrite delivered_app, Hc2, delivered_app, delivered_log_entry, app_nil_r.
    done.
  - unfold node_blocks, opt_block. set_solver.
  - destruct (source_copy node), (data_copy node); reflexivity.
Qed.

Lemma push_all_events_processed cfg (l : list push_args) m :
  non_reentrant cfg ->
  events_processed (proc (snd (push_all cfg l m)))
  = events_processed (proc m).
Proof.
  intros NR. revert m. induction l as [|a l IH]; intros m; [done|].
  cbn [push_all snd]. rewrite IH. destruct a as [ty src buf len].
  cbn [arg_type arg_source arg_data arg_len].
  pose proof (push_cases cfg ty src buf len m NR) as Hcases.
  cbn zeta in Hcases.
  destruct Hcases as [(_ & _ & Hp & _)
    | (node & _ & _ & _ & _ & [(_ & Hp & _) | (_ & Hp & _)])];
    by rewrite Hp.
Qed.

(** X12. Events may be pushed before the processor is started: pushes do
    not look at the state.  After N pushes that all returned true with no
    candidate rejected, in whatever state, [start] followed by
    [process_all] (granted one iteration per queued event) returns with
    the queue empty, having handed the consume hook the events already
    queued and then the pushed ones, in push order, and having counted
    them all. *)
Theorem pushes_before_start_delivered_after cfg hook pushes fuel m :
  non_reentrant cfg ->
  on_event cfg = Some hook ->
  0 <= events_processed (proc m) < SIZE_MOD ->
  Forall (fun b => b = true) (fst (push_all cfg pushes m)) ->
  rejected (calls (snd (push_all cfg pushes m))) = rejected (calls m) ->
  (length (queue (proc m)) + length pushes <= fuel)%nat ->
  exists evs r,
    Forall2 carried pushes evs /\
    (plan (mem m) = [] -> evs = map exact_copy pushes) /\
    event_processor_process_all cfg PTR fuel
      (snd (event_processor_start cfg PTR (snd (push_all cfg pushes m))))
    = Some r /\
    queue (proc (snd r)) = [] /\
    state (proc (snd r)) = STATE_RUNNING /\
    delivered (calls (snd r))
    = delivered (calls m) ++ map event (queue (proc m)) ++ evs /\
    events_processed (proc (snd r))
    = size_wrap (events_processed (proc m)
                 + Z.of_nat (length (queue (proc m)) + length pushes)).
Proof.
  intros NR Hev Hep Hall Hrej Hfuel.
  pose proof (push_all_appends cfg pushes m NR) as Hpa. cbn zeta in Hpa.
  destruct Hpa as (_ & Hd1 & rej & Hrej' & Hnodes).
  assert (rej = []) as ->.
  { rewrite Hrej' in Hrej.
    rewrite <- (app_nil_r (rejected (calls m))) in Hrej at 2.
    by apply app_inv_head in Hrej. }
  destruct (Hnodes Hall eq_refl) as (nodes & Hq1 & Hcar & Hex).
  pose proof (push_all_events_processed cfg pushes m NR) as Hep1.
  set (queued := snd (push_all cfg pushes m)) in *.
  unfold event_processor_start.
  pose proof (change_state_frame cfg STATE_RUNNING queued NR)
    as (Hp2 & _ & Hd2).
  set (started := snd (change_state cfg STATE_RUNNING queued)) in *.
  assert (state (proc started) = STATE_RUNNING) as Hs by (by rewrite Hp2).
  assert (queue (proc started) = queue (proc m) ++ nodes) as Hq2
    by (by rewrite Hp2).
  assert (length (queue (proc started))
          = (length (queue (proc m)) + length pushes)%nat) as Hlen.
  { rewrite Hq2, length_app. f_equal.
    apply Forall2_length in Hcar. by rewrite length_map in Hcar. }
  assert (0 <= events_processed (proc started) < SIZE_MOD) as Hep2
    by (by rewrite Hp2; cbn; rewrite Hep1).
  unfold event_processor_process_all.
  rewrite (process_all_loop_running_count cfg fuel 0 started NR Hs)
    by (rewrite Hlen; lia).
  pose proof (process_times_running cfg (length (queue (proc started)))
                started NR Hs) as (Hs3 & Hq3 & Hd3).
  pose proof (process_times_running_counters cfg
                (length (queue (proc started))) started NR Hs Hep2 (le_n _))
    as (Hep3 & _).
  set (pt := process_times cfg (length (queue (proc started))) started) in *.
  rewrite drop_all in Hq3. rewrite firstn_all, Hev, Hd2, Hd1, Hq2 in Hd3.
  rewrite Hlen, Hp2 in Hep3. cbn [events_processed set_state] in Hep3.
  rewrite Hep1 in Hep3. rewrite List.map_app in Hd3.
  exists (map event nodes).
  destruct (0 <? _).
  - eexists. split_and!; try done; cbn [snd].
    + by rewrite log_message_proc.
    + by rewrite log_message_proc.
    + rewrite log_message_calls, delivered_app, delivered_log_entry,
        app_nil_r by exact NR. exact Hd3.
    + by rewrite log_message_proc.
  - eexists. split_and!; done.
Qed.

End Extras3.

(** * The further properties at concrete processors *)

Lemma tour_quiet_non_reentrant : non_reentrant Tour.quiet.
Proof.
  unfold non_reentrant, Tour.quiet, Demo.cfg; cbn.
  split_and!; intros hook [= <-]; intros; intros m; reflexivity.
Qed.

Lemma tour_wordy_non_reentrant : non_reentrant Tour.wordy.
Proof.
  unfold non_reentrant, Tour.wordy, Demo.cfg; cbn.
  split_and!; intros hook [= <-]; intros; intros m; reflexivity.
Qed.

Lemma clear_queue_drains_witness :
  queue (proc (snd (event_processor_clear_queue Demo.cfg PTR
                      (Demo.idle_two Demo.cfg)))) = [] /\
  event_processor_queue_size PTR
    (snd (event_processor_clear_queue Demo.cfg PTR (Demo.idle_two Demo.cfg)))
  = 0.
Proof.
  destruct (clear_queue_drains Demo.cfg (Demo.idle_two Demo.cfg)
              demo_cfg_non_reentrant) as (Hq & Hsz & _).
  split; [exact Hq | exact Hsz].
Defined.

Lemma process_all_running_drains_witness :
  exists r,
    event_processor_process_all Demo.cfg PTR 2 Tour.running_two = Some r /\
    queue (proc (snd r)) = [] /\
    events_processed (proc (snd r)) = 2.
Proof.
  assert (queue_inv Demo.cfg Tour.running_two) as Hinv
    by (split; [reflexivity | intros _; vm_compute; discriminate]).
  assert (0 <= events_processed (proc Tour.running_two) < SIZE_MOD) as Hep
    by (split; vm_compute; [discriminate | reflexivity]).
  destruct (process_all_running_drains Demo.cfg 2 Tour.running_two
              demo_cfg_non_reentrant eq_refl Hinv Hep (le_n 2))
    as (r & Hr & Hq & _ & _ & Hcount & _).
  exists r. split_and!; [exact Hr | exact Hq | exact Hcount].
Defined.

Lemma process_all_terminates_iff_witness :
  exists fuel r,
    event_processor_process_all Demo.cfg PTR fuel Tour.running_two = Some r.
Proof.
  apply (proj2 (process_all_terminates_iff Demo.cfg Tour.running_two
                  demo_cfg_non_reentrant)).
  right. reflexivity.
Defined.


Lemma state_name_always_valid_witness :
  run_all Demo.cfg PTR Tour.session (Demo.created Demo.cfg [])
  = Some (Tour.after_session Demo.cfg) /\
  event_processor_get_state PTR (Tour.after_session Demo.cfg)
  ∈ ["IDLE"; "RUNNING"; "STOPPED"].
Proof.
  assert (run_all Demo.cfg PTR Tour.session (Demo.created Demo.cfg [])
          = Some (Tour.after_session Demo.cfg)) as Hrun
    by (vm_compute; reflexivity).
  split; [exact Hrun|].
  exact (proj2 (state_name_always_valid Demo.cfg (Demo.boot []) Tour.session
                  (Tour.after_session Demo.cfg)
                  demo_cfg_non_reentrant eq_refl Hrun)).
Defined.

Lemma pause_resume_keeps_queue_witness :
  queue (proc (snd (event_processor_start Demo.cfg PTR
                 (snd (event_processor_stop Demo.cfg PTR Tour.running_two)))))
  = queue (proc Tour.running_two).
Proof.
  destruct (pause_resume_keeps_queue Demo.cfg (fun _ _ => Demo.bump tt)
              Tour.running_two demo_cfg_non_reentrant eq_refl)
    as (_ & _ & Hq & _).
  exact Hq.
Defined.

Lemma log_entries_bounded_witness :
  run_all Tour.wordy PTR Tour.session (Demo.created Tour.wordy [])
  = Some (Tour.after_session Tour.wordy) /\
  well_logged (Demo.created Tour.wordy []) (Tour.after_session Tour.wordy) /\
  String.length ("Event processor '" +:+ Tour.long_name +:+ "' created")
  = 326%nat /\
  calls (Demo.created Tour.wordy [])
  = [LogCall "INFO"
       ("Event processor '" +:+
        String.concat "" (replicate 23 "xxxxxxxxxx") +:+ "xxxxxxxx")] /\
  String.list_ascii_of_string
    (vsnprintf256 ("Event processor '" +:+ Tour.long_name +:+ "' created"))
  = take 255
      (String.list_ascii_of_string
         ("Event processor '" +:+ Tour.long_name +:+ "' created")).
Proof.
  assert (run_all Tour.wordy PTR Tour.session (Demo.created Tour.wordy [])
          = Some (Tour.after_session Tour.wordy)) as Hrun
    by (vm_compute; reflexivity).
  destruct (log_entries_bounded Tour.wordy PTR (Some 1%positive)
              Tour.session (Demo.created Tour.wordy [])
              (Tour.after_session Tour.wordy)
              tour_wordy_non_reentrant Hrun)
    as (Hsession & Hcreate & _ & _ & Hcut).
  split; [exact Hrun|]. split; [exact Hsession|].
  split; [vm_compute; reflexivity|]. split.
  - unfold Demo.created.
    rewrite (proj2 (Hcreate (Demo.boot []))
               ltac:(vm_compute; reflexivity)).
    vm_compute. reflexivity.
  - exact (proj1 (Hcut _)).
Defined.

Lemma logging_disabled_is_silent_witness :
  enable_logging Tour.quiet = false /\
  run_all Tour.quiet PTR Tour.session (Demo.created Tour.quiet [])
  = Some (Tour.after_session Tour.quiet) /\
  log_entries (calls (Tour.after_session Tour.quiet))
  = log_entries (calls (Demo.created Tour.quiet [])).
Proof.
  assert (run_all Tour.quiet PTR Tour.session (Demo.created Tour.quiet [])
          = Some (Tour.after_session Tour.quiet)) as Hrun
    by (vm_compute; reflexivity).
  split; [reflexivity|]. split; [exact Hrun|].
  exact (proj1 (logging_disabled_is_silent Tour.quiet PTR None Tour.session
                  (Demo.created Tour.quiet [])
                  (Tour.after_session Tour.quiet)
                  tour_quiet_non_reentrant (or_introl eq_refl) Hrun)).
Defined.

Lemma create_use_destroy_no_leak_witness :
  run_all Demo.cfg PTR Tour.session (Demo.created Demo.cfg [])
  = Some (Tour.after_session Demo.cfg) /\
  exists self,
    live (mem (snd (event_processor_destroy Demo.cfg (Some self)
                      (Tour.after_session Demo.cfg))))
    = live (mem (Demo.boot [])).
Proof.
  assert (run_all Demo.cfg PTR Tour.session (Demo.created Demo.cfg [])
          = Some (Tour.after_session Demo.cfg)) as Hrun
    by (vm_compute; reflexivity).
  split; [exact Hrun|].
  destruct (create_use_destroy_no_leak Demo.cfg (Demo.boot []) Tour.session
              (Tour.after_session Demo.cfg)
              demo_cfg_non_reentrant eq_refl Hrun)
    as (self & _ & _ & Hl & _).
  exists self. exact Hl.
Defined.

Lemma process_consumes_head_witness :
  heap_inv {[ 1%positive ]} Tour.running_two /\
  queue (proc (snd (event_processor_process Demo.cfg PTR Tour.running_two)))
  = tail (queue (proc Tour.running_two)) /\
  events_processed (proc (snd (event_processor_process Demo.cfg PTR
                                 Tour.running_two)))
  = size_wrap (events_processed (proc Tour.running_two) + 1).
Proof.
  assert (heap_inv {[ 1%positive ]} Tour.running_two) as Hinv
    by compute_done.
  split; [exact Hinv|].
  destruct (process_consumes_head Demo.cfg {[ 1%positive ]} Tour.running_two
              (hd Demo.error_candidate (queue (proc Tour.running_two)))
              (tail (queue (proc Tour.running_two)))
              demo_cfg_non_reentrant
              ltac:(vm_compute; reflexivity) ltac:(vm_compute; reflexivity)
              Hinv)
    as (Hq & _ & Hep & _).
  split; [exact Hq | exact Hep].
Defined.

Lemma consume_hook_runs_between_witness :
  exists m_in : machine nat,
    queue (proc m_in) = tail (queue (proc Tour.running_two)) /\
    mem m_in = mem Tour.running_two.
Proof.
  destruct (consume_hook_runs_between Demo.cfg (fun _ _ => Demo.bump tt)
              Tour.running_two
              (hd Demo.error_candidate (queue (proc Tour.running_two)))
              (tail (queue (proc Tour.running_two)))
              (proj1 demo_cfg_non_reentrant) eq_refl
              ltac:(vm_compute; reflexivity) ltac:(vm_compute; reflexivity))
    as (m_in & Hp & Hm & _).
  exists m_in. split; [by rewrite Hp | exact Hm].
Defined.

Lemma pushes_before_start_delivered_after_witness :
  state (proc (Demo.created Demo.cfg [])) = STATE_IDLE /\
  exists evs r,
    evs = map exact_copy Demo.two_pushes /\
    event_processor_process_all Demo.cfg PTR 2
      (snd (event_processor_start Demo.cfg PTR
              (snd (push_all Demo.cfg Demo.two_pushes
                      (Demo.created Demo.cfg [])))))
    = Some r /\
    delivered (calls (snd r))
    = delivered (calls (Demo.created Demo.cfg [])) ++
      map event (queue (proc (Demo.created Demo.cfg []))) ++ evs.
Proof.
  split; [reflexivity|].
  assert (0 <= events_processed (proc (Demo.created Demo.cfg [])) < SIZE_MOD)
    as Hep by (split; vm_compute; [discriminate | reflexivity]).
  destruct (pushes_before_start_delivered_after Demo.cfg
              (fun _ _ => Demo.bump tt) Demo.two_pushes 2
              (Demo.created Demo.cfg [])
              demo_cfg_non_reentrant eq_refl Hep
              ltac:(repeat constructor) eq_refl (le_n 2))
    as (evs & r & _ & Hex & Hr & _ & _ & Hd & _).
  exists evs, r. split_and!; [exact (Hex eq_refl) | exact Hr | exact Hd].
Defined.
